(** * images_to_pdf: a shallow embedding of [images_to_pdf.py]

    The script turns a directory of images into one PDF.  Each image is
    tone-adjusted ([apply_brightness_contrast]), staged as a JPEG in a
    scratch directory ([convert_imgs]), the scratch directory is handed to
    the external assembler ([imgs_to_pdf]) and then removed
    ([delete_temp_imgs]).  [check_valid_args] guards the run and [main]
    ties the steps together.

    Python values are modelled as follows.
    - [str]: Rocq strings, one character per code point below 256.
    - [int]: [Z].  [float]: IEEE binary64 through [SpecFloat]
      (precision 53, [emax] 1024), the format of CPython floats.
    - uint8 [numpy] arrays: a shape and the flat list of samples.
    - exceptions: the type [exn]; a computation that may raise returns a
      [result].
    - the file system, standard input and the console: the record [world],
      threaded by the monad [M]. *)

From Stdlib Require Import ZArith SpecFloat Ascii String.
From stdpp Require Import base gmap strings list fin_maps sets.

Open Scope Z_scope.

(** ** Exceptions and results *)

Inductive exn : Type :=
| ZeroDivisionError
| OverflowError
| AttributeError          (* [None.copy()] *)
| Cv2Error                (* [cv2.error] *)
| FileExistsError
| FileNotFoundError
| NotADirectoryError
| IsADirectoryError
| EOFError
| ValueError (msg : string)
| SystemExit (code : Z)
| AssemblerError (msg : string).   (* anything [img2pdf.convert] raises *)

Inductive result (A : Type) : Type :=
| Ok (a : A)
| Raise (e : exn).
Arguments Ok {A} a.
Arguments Raise {A} e.

(** Exit status of the interpreter for the outcome of [main]: a normal
    return and [SystemExit(0)] give 0, [SystemExit(n)] gives [n], any other
    uncaught exception gives 1. *)
Definition exit_status {A} (r : result A) : Z :=
  match r with
  | Ok _ => 0
  | Raise (SystemExit n) => n
  | Raise _ => 1
  end.

(** ** Python strings *)

Module PyStr.

Definition code (c : ascii) : N := N_of_ascii c.

(** [str.isspace] on one character (code points below 256). *)
Definition isspace (c : ascii) : bool :=
  let n := code c in
  ((9 <=? n) && (n <=? 13) || (28 <=? n) && (n <=? 32)
   || (n =? 133) || (n =? 160))%N.

(** [str.lower] on one character: A-Z and the Latin-1 capitals. *)
Definition lower_char (c : ascii) : ascii :=
  let n := code c in
  if ((65 <=? n) && (n <=? 90)
      || (192 <=? n) && (n <=? 222) && negb (n =? 215))%N
  then ascii_of_N (n + 32) else c.

Fixpoint lower (s : string) : string :=
  match s with
  | EmptyString => EmptyString
  | String c s' => String (lower_char c) (lower s')
  end.

Fixpoint lstrip (s : string) : string :=
  match s with
  | EmptyString => EmptyString
  | String c s' => if isspace c then lstrip s' else s
  end.

(** Drops trailing white space: the tail is stripped first, and the head
    goes too when nothing is left after it. *)
Fixpoint rstrip (s : string) : string :=
  match s with
  | EmptyString => EmptyString
  | String c s' =>
      match rstrip s' with
      | EmptyString => if isspace c then EmptyString else String c EmptyString
      | t => String c t
      end
  end.

Definition strip (s : string) : string := rstrip (lstrip s).

Definition eqb (a b : string) : bool := bool_decide (a = b).

End PyStr.

(** ** Python floats *)

Module PyFloat.

Definition float : Type := spec_float.

Definition prec : Z := 53.
Definition emax : Z := 1024.

Definition fadd : float -> float -> float := SFadd prec emax.
Definition fsub : float -> float -> float := SFsub prec emax.
Definition fmul : float -> float -> float := SFmul prec emax.
Definition fdiv : float -> float -> float := SFdiv prec emax.

(** The float nearest to an integer (ties to even). *)
Definition of_Z (z : Z) : float := binary_normalize prec emax z 0 false.

(** [float(z)] where an [int] meets a [float] operand or a C [double]
    parameter: an integer beyond the range raises [OverflowError]. *)
Definition float_of_int (z : Z) : result float :=
  match of_Z z with
  | S754_infinity _ => Raise OverflowError
  | x => Ok x
  end.

(** An integer as an exact operand [z * 2^0]. *)
Definition exact (z : Z) : float :=
  match z with
  | Z0 => S754_zero false
  | Zpos p => S754_finite false p 0
  | Zneg p => S754_finite true p 0
  end.

(** [a / b] on two [int]s: [ZeroDivisionError] for a zero divisor,
    otherwise the quotient of the exact integers rounded once to the
    nearest float; [OverflowError] if that is out of range. *)
Definition truediv (a b : Z) : result float :=
  if b =? 0 then Raise ZeroDivisionError
  else match fdiv (exact a) (exact b) with
       | S754_infinity _ => Raise OverflowError
       | q => Ok q
       end.

(** Nearest integer, ties to even, of [m * 2^e]. *)
Definition round_half_even (m : positive) (e : Z) : Z :=
  match e with
  | Zneg k =>
      let d := 2 ^ Zpos k in
      let q := Zpos m / d in
      let r := Zpos m mod d in
      match 2 * r ?= d with
      | Lt => q
      | Gt => q + 1
      | Eq => if Z.even q then q else q + 1
      end
  | _ => Zpos m * 2 ^ e
  end.

Definition is_finite (x : float) : bool :=
  match x with
  | S754_zero _ | S754_finite _ _ _ => true
  | _ => false
  end.

End PyFloat.
Import PyFloat.

(** ** Pixel buffers and the OpenCV operations the script calls *)

(** A [numpy] array of dtype uint8: its shape and its samples in row-major
    order. *)
Record ndarray : Type := mk_ndarray {
  shape : list nat;
  data : list Z
}.

(** A well-formed uint8 array: as many samples as the shape says, each in
    [0, 255]. *)
Definition uint8_array (a : ndarray) : Prop :=
  length (data a) = foldr Nat.mul 1%nat (shape a) /\
  Forall (fun v => 0 <= v <= 255) (data a).

#[global] Instance ndarray_eq_dec : EqDecision ndarray.
Proof. solve_decision. Defined.

Module cv2.

(** [saturate_cast<uchar>]: round to the nearest integer (ties to even)
    and clamp to [0, 255]. *)
Definition saturate_u8 (x : float) : Z :=
  match x with
  | S754_zero _ => 0
  | S754_finite s m e =>
      Z.max 0 (Z.min 255 (cond_Zopp s (round_half_even m e)))
  | S754_infinity s => if s then 0 else 255
  | S754_nan => 0
  end.

(** One sample of [addWeighted]:
    [saturate(src1 * alpha + src2 * beta + gamma)]. *)
Definition weighted (alpha beta gamma : float) (x y : Z) : Z :=
  saturate_u8
    (fadd (fadd (fmul (of_Z x) alpha) (fmul (of_Z y) beta)) gamma).

Fixpoint zip_weighted (alpha beta gamma : float) (xs ys : list Z)
  : list Z :=
  match xs, ys with
  | x :: xs', y :: ys' =>
      weighted alpha beta gamma x y :: zip_weighted alpha beta gamma xs' ys'
  | _, _ => []
  end.

(** [cv2.addWeighted(src1, alpha, src2, beta, gamma)], the documented
    contract of the library: [dst = saturate(src1 * alpha + src2 * beta
    + gamma)] sample by sample, on two arrays of one shape; anything
    else, [None] included, is a [cv2.error].  The weighted sum is taken
    in the format of the scalars it is given; the statements below use of
    it only that a zero [beta] term changes no sample. *)
Definition addWeighted (src1 : option ndarray) (alpha : float)
    (src2 : option ndarray) (beta gamma : float) : result ndarray :=
  match src1, src2 with
  | Some a, Some b =>
      if bool_decide (shape a = shape b)
      then Ok {| shape := shape a;
                 data := zip_weighted alpha beta gamma (data a) (data b) |}
      else Raise Cv2Error
  | _, _ => Raise Cv2Error
  end.

End cv2.

(** ** The error monad of pure code that may raise *)

Definition rbind {A B} (r : result A) (k : A -> result B) : result B :=
  match r with
  | Ok a => k a
  | Raise e => Raise e
  end.

Notation "'let?' x ':=' r 'in' k" := (rbind r (fun x => k))
  (at level 10, x name, r at level 100, k at level 200,
   format "'[' 'let?'  x  ':='  r  'in' ']' '/' k").

(** ** Tone Adjuster *)

(** [apply_brightness_contrast(input_img, brightness=0, contrast=0)].
    [input_img] is whatever [cv2.imread] gave: an array, or [None]. *)
Definition apply_brightness_contrast (input_img : option ndarray)
    (brightness contrast : Z) : result ndarray :=
  let? buf :=
    (if negb (brightness =? 0) then
       let '(shadow, highlight) :=
         if 0 <? brightness then (brightness, 255)
         else (0, 255 + brightness) in
       let? alpha_b := truediv (highlight - shadow) 255 in
       let gamma_b := shadow in
       let? gamma_b' := float_of_int gamma_b in
       cv2.addWeighted input_img alpha_b input_img (of_Z 0) gamma_b'
     else
       match input_img with
       | Some a => Ok a                      (* input_img.copy() *)
       | None => Raise AttributeError
       end) in
  let? buf :=
    (if negb (contrast =? 0) then
       let? f := truediv (131 * (contrast + 127)) (127 * (131 - contrast)) in
       let alpha_c := f in
       let gamma_c := fmul (of_Z 127) (fsub (of_Z 1) f) in
       cv2.addWeighted (Some buf) alpha_c (Some buf) (of_Z 0) gamma_c
     else Ok buf) in
  Ok buf.

(** The Tone Adjuster in the words of its contract: [adjust(buffer,
    brightness, contrast)].  The quotient [f] is taken as written, a plain
    float division. *)
Module ToneSpec.

(** [clamp(buffer * alpha + gamma)], sample by sample. *)
Definition clamp_affine (alpha gamma : float) (buf : ndarray) : ndarray :=
  {| shape := shape buf;
     data := map (fun v => cv2.saturate_u8 (fadd (fmul (of_Z v) alpha) gamma))
                 (data buf) |}.

Definition adjust_brightness (buf : ndarray) (brightness : Z) : ndarray :=
  if brightness =? 0 then buf
  else
    let shadow := Z.max brightness 0 in
    let highlight := 255 + Z.min brightness 0 in
    clamp_affine (fdiv (of_Z (highlight - shadow)) (of_Z 255))
                 (of_Z shadow) buf.

Definition adjust_contrast (buf : ndarray) (contrast : Z) : ndarray :=
  if contrast =? 0 then buf
  else
    let f := fdiv (of_Z (131 * (contrast + 127)))
                  (of_Z (127 * (131 - contrast))) in
    clamp_affine f (fmul (of_Z 127) (fsub (of_Z 1) f)) buf.

Definition adjust (buf : ndarray) (brightness contrast : Z) : ndarray :=
  adjust_contrast (adjust_brightness buf brightness) contrast.

End ToneSpec.

(** ** Regular expressions: the fragment of [re] that [get_img_name] uses *)

Module re.

(** One-character patterns: a literal, or [.] (anything but a newline). *)
Inductive item : Type :=
| Chr (c : ascii)
| Dot.

Inductive regex : Type :=
| Item (i : item)
| Star (i : item)                 (* greedy [i*] *)
| Cat (r1 r2 : regex)
| Alt (r1 r2 : regex)
| Group (n : nat) (r : regex)     (* the [n]-th parenthesis *)
| Eol.                            (* [$] *)

Definition newline : ascii := "010"%char.

Definition item_ok (i : item) (c : ascii) : bool :=
  match i with
  | Chr d => bool_decide (c = d)
  | Dot => negb (bool_decide (c = newline))
  end.

Definition captures : Type := list (nat * string).

(** The first [length s - length s'] characters of [s]: what a group
    consumed when it entered at [s] and left at [s']. *)
Definition consumed (s s' : string) : string :=
  String.substring 0 (String.length s - String.length s') s.

(** Backtracking matcher in continuation-passing style.  [star] is
    greedy: it first takes one more character and gives one back only
    when the rest of the pattern fails. *)
Fixpoint star {R} (i : item) (s : string) (k : string -> option R)
  : option R :=
  match s with
  | String c s' =>
      if item_ok i c
      then match star i s' k with
           | Some r => Some r
           | None => k s
           end
      else k s
  | EmptyString => k s
  end.

Fixpoint mtch (r : regex) (s : string) (caps : captures)
    (k : string -> captures -> option captures) : option captures :=
  match r with
  | Item i =>
      match s with
      | String c s' => if item_ok i c then k s' caps else None
      | EmptyString => None
      end
  | Star i => star i s (fun s' => k s' caps)
  | Cat r1 r2 => mtch r1 s caps (fun s' caps' => mtch r2 s' caps' k)
  | Alt r1 r2 =>
      match mtch r1 s caps k with
      | Some c => Some c
      | None => mtch r2 s caps k
      end
  | Group n r =>
      mtch r s caps (fun s' caps' => k s' ((n, consumed s s') :: caps'))
  | Eol =>
      (* end of the string, or just before a newline that ends it *)
      if bool_decide (s = EmptyString)
         || bool_decide (s = String newline EmptyString)
      then k s caps else None
  end.

(** [re.search]: the match at the leftmost start that has one. *)
Fixpoint search (r : regex) (s : string) : option captures :=
  match mtch r s [] (fun _ caps => Some caps) with
  | Some caps => Some caps
  | None =>
      match s with
      | String _ s' => search r s'
      | EmptyString => None
      end
  end.

Fixpoint group (n : nat) (caps : captures) : option string :=
  match caps with
  | [] => None
  | (m, s) :: caps' => if Nat.eqb n m then Some s else group n caps'
  end.

Fixpoint lit (s : string) : regex :=
  match s with
  | EmptyString => Star (Chr "000"%char)   (* not used: literals are non-empty *)
  | String c EmptyString => Item (Chr c)
  | String c s' => Cat (Item (Chr c)) (lit s')
  end.

End re.

(** The pattern of [get_img_name]: group 1 is a greedy run of [.], group 2
    is one of the literals [.png] and [.jpg], and [$] closes it. *)
Definition img_pattern : re.regex :=
  re.Cat (re.Group 1 (re.Star re.Dot))
    (re.Cat (re.Group 2 (re.Alt (re.lit ".png") (re.lit ".jpg"))) re.Eol).

(** [get_img_name(img_path)]: the file's name without the suffix, [None]
    if it is not a jpg or png. *)
Definition get_img_name (img_path : string) : option string :=
  match re.search img_pattern img_path with
  | Some img_match => re.group 1 img_match
  | None => None
  end.

(** ** Paths ([pathlib]) *)

(** A path is the list of its components below the root; [[]] is the root
    directory.  Components are plain names: [.] and [..] are not
    interpreted. *)
Abbreviation path := (list string).

Definition path_join (p : path) (name : string) : path := p ++ [name].
Infix "/:" := path_join (at level 40, left associativity).

Definition parent (p : path) : path := take (length p - 1)%nat p.
Definition name (p : path) : string := default EmptyString (last p).

Fixpoint path_str (p : path) : string :=
  match p with
  | [] => EmptyString
  | [n] => n
  | n :: p' => n +:+ "/" +:+ path_str p'
  end.

(** [str.rfind('.')] as the number of characters before the last dot. *)
Fixpoint rfind_dot (s : string) : option nat :=
  match s with
  | EmptyString => None
  | String c s' =>
      match rfind_dot s' with
      | Some i => Some (S i)
      | None => if bool_decide (c = "."%char) then Some 0%nat else None
      end
  end.

(** [PurePath.suffix]: from the last dot on, unless that dot starts or
    ends the name. *)
Definition suffix (p : path) : string :=
  let n := name p in
  match rfind_dot n with
  | Some i =>
      if bool_decide (0 < i)%nat && bool_decide (i < String.length n - 1)%nat
      then String.substring i (String.length n - i) n
      else EmptyString
  | None => EmptyString
  end.

(** [PurePath.with_suffix(suffix)], for a suffix that is well formed (it
    starts with a dot and has no separator). *)
Definition with_suffix (p : path) (new_suffix : string) : result path :=
  let n := name p in
  if bool_decide (n = EmptyString)
  then Raise (ValueError (path_str p +:+ " has an empty name"))
  else
    let old_suffix := suffix p in
    let n' :=
      if bool_decide (old_suffix = EmptyString) then n +:+ new_suffix
      else String.substring 0 (String.length n - String.length old_suffix) n
             +:+ new_suffix in
    Ok (parent p /: n').

(** [get_output_path(output_path)]. *)
Definition get_output_path (output_path : path) : result path :=
  with_suffix output_path ".pdf".

(** ** The file system *)

(** What a regular file holds: an image that [cv2.imread] decodes to the
    given buffer (for a JPEG written by [cv2.imwrite], the buffer it was
    encoded from), or any other bytes. *)
Inductive content : Type :=
| Image (img : ndarray)
| Blob (bytes : list Z).

Inductive node : Type :=
| File (c : content)
| Dir.

#[global] Instance content_eq_dec : EqDecision content.
Proof. solve_decision. Defined.
#[global] Instance node_eq_dec : EqDecision node.
Proof. solve_decision. Defined.

Abbreviation filesystem := (gmap path node).

(** The root always exists and is a directory. *)
Definition node_at (m : filesystem) (p : path) : option node :=
  match p with
  | [] => Some Dir
  | _ => m !! p
  end.

Definition path_exists (m : filesystem) (p : path) : bool :=
  bool_decide (is_Some (node_at m p)).
Definition is_dir (m : filesystem) (p : path) : bool :=
  bool_decide (node_at m p = Some Dir).
Definition is_file (m : filesystem) (p : path) : bool :=
  match node_at m p with
  | Some (File _) => true
  | _ => false
  end.

(** [q] is an entry of the directory [d]. *)
Definition is_child (d q : path) : bool :=
  bool_decide (q <> []) && bool_decide (parent q = d).

(** The entries of [d], in the listing order of the file system (the order
    of the keys of the map stands for it). *)
Definition children (m : filesystem) (d : path) : list path :=
  filter (fun q => is_child d q = true) (elements (dom m)).

(** Every entry lies in a directory. *)
Definition wf_fs (m : filesystem) : Prop :=
  map_Forall (fun p _ => p <> [] /\ is_dir m (parent p) = true) m.

#[global] Instance wf_fs_dec (m : filesystem) : Decision (wf_fs m).
Proof. unfold wf_fs. apply _. Defined.

(** Some proper ancestor of [p] is a regular file. *)
Definition under_file (m : filesystem) (p : path) : bool :=
  bool_decide (Exists (fun k => is_file m (take k p) = true)
                      (seq 0 (length p))).

(** [os.mkdir(p)]. *)
Definition os_mkdir (p : path) (m : filesystem) : result filesystem :=
  if path_exists m p then Raise FileExistsError
  else if is_dir m (parent p) then Ok (<[p := Dir]> m)
  else if under_file m p then Raise NotADirectoryError
  else Raise FileNotFoundError.

(** What [Path.mkdir] does with an [OSError] other than
    [FileNotFoundError]: swallowed only for [exist_ok] on a directory. *)
Definition mkdir_oserror (p : path) (exist_ok : bool) (e : exn)
    (m : filesystem) : result filesystem :=
  if negb exist_ok || negb (is_dir m p) then Raise e else Ok m.

(** [Path.mkdir(parents=False, exist_ok=exist_ok)]. *)
Definition mkdir_leaf (p : path) (exist_ok : bool) (m : filesystem)
    : result filesystem :=
  match os_mkdir p m with
  | Ok m' => Ok m'
  | Raise FileNotFoundError => Raise FileNotFoundError
  | Raise e => mkdir_oserror p exist_ok e m
  end.

(** [Path.mkdir(parents, exist_ok)], by recursion on the components of the
    path from the last one up ([rp] is the path reversed): when the parent
    is missing and [parents] is set, the parent is made first, with
    [parents=True, exist_ok=True], then the directory itself. *)
Fixpoint mkdir_rev (rp : list string) (parents exist_ok : bool)
    (m : filesystem) : result filesystem :=
  let p := reverse rp in
  match os_mkdir p m with
  | Ok m' => Ok m'
  | Raise FileNotFoundError =>
      match rp with
      | [] => Raise FileNotFoundError          (* the parent is the path itself *)
      | _ :: rparent =>
          if parents then
            let? m1 := mkdir_rev rparent true true m in
            mkdir_leaf p exist_ok m1
          else Raise FileNotFoundError
      end
  | Raise e => mkdir_oserror p exist_ok e m
  end.

Definition fs_mkdir (p : path) (parents exist_ok : bool) (m : filesystem)
    : result filesystem :=
  mkdir_rev (reverse p) parents exist_ok m.

(** [Path.unlink()]. *)
Definition fs_unlink (p : path) (m : filesystem) : result filesystem :=
  match node_at m p with
  | Some (File _) => Ok (delete p m)
  | Some Dir => Raise IsADirectoryError
  | None => if under_file m p then Raise NotADirectoryError
            else Raise FileNotFoundError
  end.

(** [shutil.rmtree(p)]: the directory and everything below it. *)
Definition fs_rmtree (p : path) (m : filesystem) : result filesystem :=
  match node_at m p with
  | Some Dir => Ok (filter (fun kv => ~ p `prefix_of` kv.1) m)
  | Some (File _) => Raise NotADirectoryError
  | None => if under_file m p then Raise NotADirectoryError
            else Raise FileNotFoundError
  end.

(** [open(p, "wb")] followed by [write(bytes)] and the close of the
    [with] block. *)
Definition fs_write_bytes (p : path) (bytes : list Z) (m : filesystem)
    : result filesystem :=
  match node_at m p with
  | Some Dir => Raise IsADirectoryError
  | _ =>
      if is_dir m (parent p) then Ok (<[p := File (Blob bytes)]> m)
      else if under_file m p then Raise NotADirectoryError
      else Raise FileNotFoundError
  end.

(** [cv2.imread(p)]: the decoded buffer, [None] when there is no readable
    image at [p]. *)
Definition fs_imread (p : path) (m : filesystem) : option ndarray :=
  match node_at m p with
  | Some (File (Image img)) => Some img
  | _ => None
  end.

(** [cv2.imwrite(p, img)]: writes the encoded image and returns [True];
    where no file can be created it returns [False] and writes nothing. *)
Definition fs_imwrite (p : path) (img : ndarray) (m : filesystem)
    : bool * filesystem :=
  if is_dir m (parent p) && negb (is_dir m p)
  then (true, <[p := File (Image img)]> m)
  else (false, m).

(** ** The world and the monad of the script *)

(** What the console shows, in order: a prompt written by [input] (which
    then blocks on standard input) or a line written by [print]. *)
Inductive event : Type :=
| EvPrompt (msg : string)
| EvPrint (line : string).

Record world : Type := mk_world {
  fs : filesystem;
  stdin : list string;       (* the lines still to be read *)
  console : list event       (* what was written so far, oldest first *)
}.

(** A statement: it changes the world and returns or raises.  State
    changes made before an exception stay, as in Python. *)
Definition M (A : Type) : Type := world -> result A * world.

#[global] Instance M_ret : MRet M := fun A a w => (Ok a, w).
#[global] Instance M_bind : MBind M := fun A B k c w =>
  match c w with
  | (Ok a, w') => k a w'
  | (Raise e, w') => (Raise e, w')
  end.

Definition raise {A} (e : exn) : M A := fun w => (Raise e, w).

(** An expression that may raise but leaves the world alone. *)
Definition lift {A} (r : result A) : M A := fun w => (r, w).

(** The file system as an external reader finds it. *)
Definition get_fs : M filesystem := fun w => (Ok (fs w), w).

(** A file-system call: on success the new file system replaces the old. *)
Definition fs_op (op : filesystem -> result filesystem) : M unit := fun w =>
  match op (fs w) with
  | Ok m' => (Ok tt, {| fs := m'; stdin := stdin w; console := console w |})
  | Raise e => (Raise e, w)
  end.

Definition emit (evs : list event) (w : world) : world :=
  {| fs := fs w; stdin := stdin w; console := console w ++ evs |}.

(** [print(line)]. *)
Definition print (line : string) : M unit := fun w =>
  (Ok tt, emit [EvPrint line] w).

(** [input(msg)]: writes the prompt, then reads a line; [EOFError] when
    standard input is exhausted. *)
Definition input (msg : string) : M string := fun w =>
  match stdin w with
  | line :: rest =>
      (Ok line, {| fs := fs w; stdin := rest;
                   console := console w ++ [EvPrompt msg] |})
  | [] => (Raise EOFError, emit [EvPrompt msg] w)
  end.

(** [exit(code)]. *)
Definition exit {A} (code : Z) : M A := raise (SystemExit code).

(** [try: body finally: final]. *)
Definition try_finally {A} (body : M A) (final : M unit) : M A := fun w =>
  let '(r, w1) := body w in
  match final w1 with
  | (Ok _, w2) => (r, w2)
  | (Raise e, w2) => (Raise e, w2)
  end.

(** [try: body except <the exceptions caught>: handler]. *)
Definition try_except {A} (body : M A) (caught : exn -> bool)
    (handler : M A) : M A := fun w =>
  match body w with
  | (Raise e, w1) => if caught e then handler w1 else (Raise e, w1)
  | done => done
  end.

(** [for x in l: body x]. *)
Fixpoint for_each {A} (l : list A) (body : A -> M unit) : M unit :=
  match l with
  | [] => mret tt
  | x :: l' => body x;; for_each l' body
  end.

Definition Path_mkdir (p : path) (parents exist_ok : bool) : M unit :=
  fs_op (fs_mkdir p parents exist_ok).
Definition Path_unlink (p : path) : M unit := fs_op (fs_unlink p).
Definition rmtree (p : path) : M unit := fs_op (fs_rmtree p).
Definition write_bytes (p : path) (bytes : list Z) : M unit :=
  fs_op (fs_write_bytes p bytes).

(** [Path.iterdir()]: the entries are listed when the loop starts. *)
Definition iterdir (d : path) : M (list path) := fun w =>
  match node_at (fs w) d with
  | Some Dir => (Ok (children (fs w) d), w)
  | Some (File _) => (Raise NotADirectoryError, w)
  | None => (Raise (if under_file (fs w) d then NotADirectoryError
                    else FileNotFoundError), w)
  end.

(** [Path.exists()] and [Path.is_dir()]. *)
Definition Path_exists (p : path) : M bool := fun w =>
  (Ok (path_exists (fs w) p), w).
Definition Path_is_dir (p : path) : M bool := fun w =>
  (Ok (is_dir (fs w) p), w).

Definition imread (p : path) : M (option ndarray) := fun w =>
  (Ok (fs_imread p (fs w)), w).

Definition imwrite (p : path) (img : ndarray) : M bool := fun w =>
  let '(ok, m') := fs_imwrite p img (fs w) in
  (Ok ok, {| fs := m'; stdin := stdin w; console := console w |}).

(** ** The confirmation loop

    [check_valid_args] and [convert_imgs] carry the same loop:
<<
    user_cont = "_"
    while (user_cont.lower().strip() != "y"
           and user_cont.lower().strip() != "n" and user_cont != ""):
        user_cont = input(msg)
        if user_cont.lower().strip() == "n":
            print("Operation canceled.")
            exit(0)
>>
    Each round reads one line, so the loop is a recursion on standard
    input.  It returns the outcome, the lines left and what was written. *)

Definition normalise (user_cont : string) : string :=
  PyStr.strip (PyStr.lower user_cont).

Definition keeps_asking (user_cont : string) : bool :=
  negb (PyStr.eqb (normalise user_cont) "y")
  && negb (PyStr.eqb (normalise user_cont) "n")
  && negb (PyStr.eqb user_cont "").

Fixpoint confirm_loop (msg user_cont : string) (lines : list string)
    : result unit * list string * list event :=
  if keeps_asking user_cont then
    match lines with
    | [] => (Raise EOFError, [], [EvPrompt msg])
    | line :: rest =>
        if PyStr.eqb (normalise line) "n"
        then (Raise (SystemExit 0), rest,
              [EvPrompt msg; EvPrint "Operation canceled."])
        else
          let '(r, rest', evs) := confirm_loop msg line rest in
          (r, rest', EvPrompt msg :: evs)
    end
  else (Ok tt, lines, []).

Definition confirm (msg : string) : M unit := fun w =>
  let '(r, rest, evs) := confirm_loop msg "_" (stdin w) in
  (r, {| fs := fs w; stdin := rest; console := console w ++ evs |}).

(** The same loop statement by statement, on [input], [print] and [exit],
    with one unit of [fuel] per round; [confirm_rounds_enough] shows that
    it is [confirm] as soon as there is more fuel than lines to read. *)
Fixpoint confirm_rounds (fuel : nat) (msg user_cont : string) : M unit :=
  if keeps_asking user_cont then
    match fuel with
    | O => raise EOFError
    | S fuel' =>
        user_cont ← input msg;
        (if PyStr.eqb (normalise user_cont) "n"
         then print "Operation canceled.";; exit 0
         else mret tt);;
        confirm_rounds fuel' msg user_cont
    end
  else mret tt.

Definition overwrite_msg (p : path) : string :=
  "Proceeding will overwrite the following file: " +:+ path_str p
  +:+ String re.newline "Continue (Y/n): ".

(** ** The pipeline *)

Definition is_FileExistsError (e : exn) : bool :=
  match e with FileExistsError => true | _ => false end.

Definition scratch_name : string := ".images_to_pdf_temp".

(** The first half of [convert_imgs]: the scratch directory is made; if
    [mkdir] raises [FileExistsError] the user is asked, the entry is
    unlinked and the directory made again. *)
Definition convert_imgs_mkdir (output_dir : path) : M unit :=
  try_except (Path_mkdir output_dir true true) is_FileExistsError
    (confirm (overwrite_msg output_dir);;
     Path_unlink output_dir;;
     Path_mkdir output_dir true false).

(** The body of the loop of [convert_imgs], for one entry. *)
Definition convert_img (input_dir output_dir : path) (temp_suffix : string)
    (brightness contrast : Z) (img_path : path) : M unit :=
  let img_name := get_img_name (name img_path) in
  match img_name with
  | Some img_name =>
      img ← imread (input_dir /: name img_path);
      transformed_img ← lift (apply_brightness_contrast img brightness contrast);
      let file_name := img_name +:+ temp_suffix +:+ ".jpg" in
      let output_path := output_dir /: file_name in
      imwrite output_path transformed_img;;
      mret tt
  | None => mret tt
  end.

(** The second half of [convert_imgs]: the loop over [input_dir]. *)
Definition convert_imgs_loop (input_dir output_dir : path)
    (temp_suffix : string) (brightness contrast : Z) : M unit :=
  entries ← iterdir input_dir;
  for_each entries
    (convert_img input_dir output_dir temp_suffix brightness contrast).

(** [convert_imgs(input_dir, output_dir=None, temp_suffix="__temp",
    brightness=0, contrast=0)]. *)
Definition convert_imgs (input_dir : path) (output_dir : option path)
    (temp_suffix : string) (brightness contrast : Z) : M path :=
  let output_dir :=
    match output_dir with
    | None => input_dir /: scratch_name
    | Some d => d
    end in
  convert_imgs_mkdir output_dir;;
  convert_imgs_loop input_dir output_dir temp_suffix brightness contrast;;
  mret output_dir.

(** The error for an input path that is not a directory. *)
Definition invalid_input (imgs_path : path) : exn :=
  ValueError ("Invalid input images path: " +:+ path_str imgs_path).

(** [check_valid_args(imgs_path, output_path)]. *)
Definition check_valid_args (imgs_path output_path : path) : M unit :=
  output_there ← Path_exists output_path;
  (if output_there : bool
   then confirm (overwrite_msg output_path)
   else mret tt);;
  imgs_is_dir ← Path_is_dir imgs_path;
  (if negb imgs_is_dir
   then raise (invalid_input imgs_path)
   else mret tt);;
  imgs_there ← Path_exists imgs_path;
  (if negb imgs_there
   then raise (ValueError ("Input path in argument does not exist: "
                           +:+ path_str imgs_path))
   else mret tt).

(** The parsed command line. *)
Record args : Type := mk_args {
  arg_imgs_path : path;
  arg_output_path : option path;     (* [-o], [None] when absent *)
  arg_brightness : Z;                (* [-b], default 0 *)
  arg_contrast : Z                   (* [-c], default 0 *)
}.

(** The output path [main] works with: the one given, or
    [imgs_path / "combined_imgs.pdf"]. *)
Definition main_output_path (a : args) : path :=
  match arg_output_path a with
  | None => arg_imgs_path a /: "combined_imgs.pdf"
  | Some p => p
  end.

Section Pipeline.

(** [img2pdf.convert(imgs_paths)], the external assembler: it reads the
    files it is given and returns the bytes of the PDF, or raises. *)
Variable img2pdf_convert : filesystem -> list path -> result (list Z).

(** [imgs_to_pdf(imgs_dir, output_path)]. *)
Definition imgs_to_pdf (imgs_dir output_path : path) : M unit :=
  entries ← iterdir imgs_dir;
  let imgs_paths := map (fun entry => imgs_dir /: name entry) entries in
  m ← get_fs;
  pdf ← lift (img2pdf_convert m imgs_paths);
  write_bytes output_path pdf.

(** [delete_temp_imgs(temp_dir)]. *)
Definition delete_temp_imgs (temp_dir : path) : M unit := rmtree temp_dir.

(** [main(argv)], from the parsed arguments on. *)
Definition main (a : args) : M unit :=
  let imgs_path := arg_imgs_path a in
  let output_path := main_output_path a in
  check_valid_args imgs_path output_path;;
  converted_dir ← convert_imgs imgs_path None "__temp"
                     (arg_brightness a) (arg_contrast a);
  try_finally
    (out ← lift (get_output_path output_path);
     imgs_to_pdf converted_dir out)
    (delete_temp_imgs converted_dir).

End Pipeline.

(** ** Decidable equality, for checks by computation *)

#[global] Instance spec_float_eq_dec : EqDecision spec_float.
Proof. solve_decision. Defined.
#[global] Instance exn_eq_dec : EqDecision exn.
Proof. solve_decision. Defined.
#[global] Instance result_eq_dec {A} `{EqDecision A} : EqDecision (result A).
Proof. solve_decision. Defined.
#[global] Instance event_eq_dec : EqDecision event.
Proof. solve_decision. Defined.

(** The two scalars of the brightness step as the code computes them agree
    with the contract's [(highlight - shadow) / 255] and [shadow]. *)
Definition brightness_scalars_ok (brightness : Z) : bool :=
  let shadow := Z.max brightness 0 in
  let highlight := 255 + Z.min brightness 0 in
  bool_decide
    (truediv ((if 0 <? brightness then 255 else 255 + brightness)
              - (if 0 <? brightness then brightness else 0)) 255
     = Ok (fdiv (of_Z (highlight - shadow)) (of_Z 255)))
  && bool_decide
       (float_of_int (if 0 <? brightness then brightness else 0)
        = Ok (of_Z shadow)).

(** The quotient [f] of the contrast step as the code computes it agrees
    with the contract's plain division. *)
Definition contrast_scalar_ok (contrast : Z) : bool :=
  bool_decide (contrast = 131)
  || bool_decide
       (truediv (131 * (contrast + 127)) (127 * (131 - contrast))
        = Ok (fdiv (of_Z (131 * (contrast + 127)))
                   (of_Z (127 * (131 - contrast))))).

(** ** Notions used to state the behaviour of [get_img_name] *)

(** The string holds no newline character. *)
Fixpoint no_newline (s : string) : bool :=
  match s with
  | EmptyString => true
  | String c s' => negb (bool_decide (c = re.newline)) && no_newline s'
  end.

(** One of the two extensions. *)
Definition is_ext (s : string) : bool :=
  bool_decide (s = ".png") || bool_decide (s = ".jpg").

(** The extension a string ends with, if it ends with one. *)
Fixpoint ext_of (s : string) : option string :=
  match s with
  | EmptyString => None
  | String c s' =>
      match ext_of s' with
      | Some e => Some e
      | None => if is_ext s then Some s else None
      end
  end.

(** The end of [img_pattern], after group 1. *)
Definition tail_re : re.regex :=
  re.Cat (re.Group 2 (re.Alt (re.lit ".png") (re.lit ".jpg"))) re.Eol.

(** The final continuation of a match: keep the captures. *)
Definition k0 : string -> re.captures -> option re.captures :=
  fun _ caps => Some caps.

(** Every outcome of the loop: it stops at the first line that is an
    answer, having asked once per line read; with no answer left it asks
    once more and meets the end of input. *)
Inductive confirm_outcome (msg : string) (lines : list string)
  : result unit -> list string -> list event -> Prop :=
| confirm_eof :
    Forall (fun l => keeps_asking l = true) lines ->
    confirm_outcome msg lines (Raise EOFError) []
      (replicate (S (length lines)) (EvPrompt msg))
| confirm_cancel pre line rest :
    lines = pre ++ line :: rest ->
    Forall (fun l => keeps_asking l = true) pre ->
    normalise line = "n" ->
    confirm_outcome msg lines (Raise (SystemExit 0)) rest
      (replicate (S (length pre)) (EvPrompt msg)
       ++ [EvPrint "Operation canceled."])
| confirm_proceed pre line rest :
    lines = pre ++ line :: rest ->
    Forall (fun l => keeps_asking l = true) pre ->
    normalise line = "y" \/ line = "" ->
    confirm_outcome msg lines (Ok tt) rest
      (replicate (S (length pre)) (EvPrompt msg)).

(** ** Notions used to state the behaviour of [convert_imgs] *)

(** The world with another file system. *)
Definition set_fs (m : filesystem) (w : world) : world :=
  {| fs := m; stdin := stdin w; console := console w |}.

(** Where the loop of [convert_imgs] stages an entry, if it does. *)
Definition staged_path (output_dir : path) (temp_suffix : string) (q : path)
    : option path :=
  (fun img_name => output_dir /: (img_name +:+ temp_suffix +:+ ".jpg"))
    <$> get_img_name (name q).

(** The staging paths of a list of entries. *)
Definition targets (output_dir : path) (temp_suffix : string)
    (entries : list path) : list path :=
  omap (staged_path output_dir temp_suffix) entries.

(** The name ends with [.png] or [.jpg]. *)
Definition has_ext (n : string) : bool :=
  match ext_of n with Some _ => true | None => false end.

(** The name without its last four characters. *)
Definition stem (n : string) : string :=
  String.substring 0 (String.length n - 4) n.

(** The file a valid image is staged as. *)
Definition staged_name (n : string) : string := stem n +:+ "__temp" +:+ ".jpg".

(** The valid images among the entries of a directory. *)
Definition valid_images (m : filesystem) (d : path) : list path :=
  filter (fun q => has_ext (name q) = true) (children m d).

(** ** Notions used to state further properties of the Tone Adjuster *)

(** What the brightness step makes of one sample [v], and what the contrast
    step makes of it. *)
Definition brightness_sample (brightness v : Z) : Z :=
  cv2.saturate_u8
    (fadd (fmul (of_Z v)
             (fdiv (of_Z (255 + Z.min brightness 0 - Z.max brightness 0))
                   (of_Z 255)))
          (of_Z (Z.max brightness 0))).

Definition contrast_sample (contrast v : Z) : Z :=
  let f := fdiv (of_Z (131 * (contrast + 127)))
                (of_Z (127 * (131 - contrast))) in
  cv2.saturate_u8 (fadd (fmul (of_Z v) f) (fmul (of_Z 127) (fsub (of_Z 1) f))).

(** A row of outputs for the inputs [v], [v + 1], ...: every output stands
    in the relation [cmp] to its input, and [ord] holds from each output
    to the next. *)
Fixpoint row_ok (cmp ord : Z -> Z -> bool) (v : Z) (row : list Z) : bool :=
  match row with
  | [] => true
  | o :: row' =>
      cmp v o
      && match row' with
         | [] => true
         | o' :: _ => ord o o'
         end
      && row_ok cmp ord (v + 1) row'
  end.

(** The 256 samples as floats. *)
Definition sample_floats : list float := map of_Z (seqZ 0 256).

(** The table of the brightness step for one [brightness]: outputs in
    ascending order, none below its input for a positive [brightness],
    none above it for a negative one.  The scalars are computed once. *)
Definition brightness_row_ok (brightness : Z) : bool :=
  let alpha := fdiv (of_Z (255 + Z.min brightness 0 - Z.max brightness 0))
                    (of_Z 255) in
  let gamma := of_Z (Z.max brightness 0) in
  row_ok (fun v o => if 0 <? brightness then v <=? o
                     else if brightness <? 0 then o <=? v else true)
         Z.leb 0
         (map (fun x => cv2.saturate_u8 (fadd (fmul x alpha) gamma))
              sample_floats).

(** The order the contrast step keeps between outputs: ascending for
    [-127 <= contrast <= 130], descending otherwise. *)
Definition contrast_order (contrast : Z) : Z -> Z -> bool :=
  if (-127 <=? contrast) && (contrast <=? 130) then Z.leb
  else fun o o' => o' <=? o.

(** The table of the contrast step for one [contrast] other than 131:
    outputs in the order [contrast_order], and sample 127 kept. *)
Definition contrast_row_ok (contrast : Z) : bool :=
  bool_decide (contrast = 131)
  || (let f := fdiv (of_Z (131 * (contrast + 127)))
                    (of_Z (127 * (131 - contrast))) in
      let gamma := fmul (of_Z 127) (fsub (of_Z 1) f) in
      row_ok (fun v o => negb (v =? 127) || (o =? 127))
             (contrast_order contrast) 0
             (map (fun x => cv2.saturate_u8 (fadd (fmul x f) gamma))
                  sample_floats)).

(** ** Sample inputs *)

Module Sample.

(** A one-by-three image. *)
Definition img : ndarray := {| shape := [1; 3]%nat; data := [100; 0; 255] |}.

(** A directory [d] with two images and a text file. *)
Definition fs_abc : filesystem :=
  <[ ["d"; "c.txt"] := File (Blob [1; 2]) ]>
    (<[ ["d"; "b.jpg"] := File (Image img) ]>
       (<[ ["d"; "a.png"] := File (Image img) ]>
          (<[ ["d"] := Dir ]> ∅))).

Definition world_abc : world :=
  {| fs := fs_abc; stdin := []; console := [] |}.

(** An assembler that yields one byte per page. *)
Definition assembler (m : filesystem) (imgs_paths : list path)
    : result (list Z) :=
  Ok (map (fun _ => 37) imgs_paths).

(** An assembler that always fails. *)
Definition broken_assembler (m : filesystem) (imgs_paths : list path)
    : result (list Z) :=
  Raise (AssemblerError "no images").

(** The same directory with a scratch directory left behind, holding one
    old file. *)
Definition fs_stale : filesystem :=
  <[ ["d"; scratch_name; "old__temp.jpg"] := File (Image img) ]>
    (<[ ["d"; scratch_name] := Dir ]> fs_abc).

Definition world_stale : world :=
  {| fs := fs_stale; stdin := []; console := [] |}.

(** The same directory with a regular file where the scratch directory
    goes. *)
Definition fs_file_in_way : filesystem :=
  <[ ["d"; scratch_name] := File (Blob [7]) ]> fs_abc.

(** A directory with [a.png] and [a.jpg]. *)
Definition fs_same_stem : filesystem :=
  <[ ["d"; "a.jpg"] := File (Image img) ]>
    (<[ ["d"; "a.png"] := File (Image img) ]> (<[ ["d"] := Dir ]> ∅)).

Definition world_same_stem : world :=
  {| fs := fs_same_stem; stdin := []; console := [] |}.

(** The name [a.png] followed by a newline character. *)
Definition png_newline : string :=
  "a.png" +:+ String re.newline EmptyString.

(** A directory whose only entry is an image of that name. *)
Definition fs_newline : filesystem :=
  <[ ["d"; png_newline] := File (Image img) ]> (<[ ["d"] := Dir ]> ∅).

Definition world_newline : world :=
  {| fs := fs_newline; stdin := []; console := [] |}.

(** The directory [d] next to an older [q.pdf]; there is no [q.txt]. *)
Definition fs_old_pdf : filesystem :=
  <[ ["q.pdf"] := File (Blob [1; 2; 3]) ]> fs_abc.

Definition world_old_pdf : world :=
  {| fs := fs_old_pdf; stdin := []; console := [] |}.

(** A directory with an image file that does not decode. *)
Definition fs_unreadable : filesystem :=
  <[ ["d"; "bad.jpg"] := File (Blob [0]) ]> (<[ ["d"] := Dir ]> ∅).

Definition world_unreadable : world :=
  {| fs := fs_unreadable; stdin := []; console := [] |}.

End Sample.

(** * Theorems *)

(** ** Tone Adjuster *)

Lemma rbind_ok {A B} (a : A) (k : A -> result B) : rbind (Ok a) k = k a.
Proof. reflexivity. Qed.

Ltac rstep := rewrite ?rbind_ok; cbv beta zeta iota.

Section ToneAdjuster.

Lemma in_range_seqZ (P : Z -> bool) (lo : Z) (n : Z) :
  forallb P (seqZ lo n) = true ->
  forall z, lo <= z < lo + n -> P z = true.
Proof.
  intros Hall z Hz.
  rewrite forallb_forall in Hall.
  apply Hall, list_elem_of_In, elem_of_seqZ. lia.
Qed.

Lemma brightness_scalars_in_range (b : Z) :
  -255 <= b <= 255 -> brightness_scalars_ok b = true.
Proof.
  intros Hb. apply (in_range_seqZ brightness_scalars_ok (-255) 511);
    [vm_compute; reflexivity | lia].
Qed.

Lemma contrast_scalar_in_range (c : Z) :
  -255 <= c <= 255 -> contrast_scalar_ok c = true.
Proof.
  intros Hc. apply (in_range_seqZ contrast_scalar_ok (-255) 511);
    [vm_compute; reflexivity | lia].
Qed.

Lemma sample_is_finite (v : Z) :
  0 <= v <= 255 -> is_finite (of_Z v) = true.
Proof.
  intros Hv.
  apply (in_range_seqZ (fun v => is_finite (of_Z v)) 0 256);
    [vm_compute; reflexivity | lia].
Qed.

(** Adding [src2 * 0] changes no sample. *)
Lemma weighted_beta_zero (alpha gamma : float) (x y : Z) :
  is_finite (of_Z y) = true ->
  cv2.weighted alpha (of_Z 0) gamma x y
  = cv2.saturate_u8 (fadd (fmul (of_Z x) alpha) gamma).
Proof.
  intros Hy. unfold cv2.weighted.
  change (of_Z 0) with (S754_zero false).
  assert (exists s, fmul (of_Z y) (S754_zero false) = S754_zero s) as [s ->].
  { destruct (of_Z y) as [s| | |s m e]; try discriminate; by eexists. }
  destruct (fmul (of_Z x) alpha) as [s1|s1| |s1 m1 e1];
    destruct gamma as [s2|s2| |s2 m2 e2]; destruct s; try destruct s1;
    try destruct s2; reflexivity.
Qed.

Lemma zip_weighted_beta_zero (alpha gamma : float) (xs : list Z) :
  Forall (fun v => 0 <= v <= 255) xs ->
  cv2.zip_weighted alpha (of_Z 0) gamma xs xs
  = map (fun v => cv2.saturate_u8 (fadd (fmul (of_Z v) alpha) gamma)) xs.
Proof.
  induction 1 as [|v xs Hv _ IH]; [reflexivity|].
  cbn [cv2.zip_weighted map]. rewrite IH.
  by rewrite weighted_beta_zero by by apply sample_is_finite.
Qed.

Lemma saturate_u8_range (x : float) : 0 <= cv2.saturate_u8 x <= 255.
Proof. destruct x as [s|s| |s m e]; try destruct s; simpl; lia. Qed.

Lemma addWeighted_self (alpha gamma : float) (buf : ndarray) :
  uint8_array buf ->
  cv2.addWeighted (Some buf) alpha (Some buf) (of_Z 0) gamma
  = Ok (ToneSpec.clamp_affine alpha gamma buf).
Proof.
  intros [_ Hdata]. unfold cv2.addWeighted, ToneSpec.clamp_affine.
  rewrite bool_decide_eq_true_2 by done.
  by rewrite zip_weighted_beta_zero.
Qed.

Lemma clamp_affine_uint8 (alpha gamma : float) (buf : ndarray) :
  uint8_array buf -> uint8_array (ToneSpec.clamp_affine alpha gamma buf).
Proof.
  intros [Hlen _]. split; simpl.
  - by rewrite length_map.
  - apply Forall_forall. intros v Hv.
    apply list_elem_of_fmap in Hv as (u & -> & _). apply saturate_u8_range.
Qed.

Lemma adjust_brightness_uint8 (buf : ndarray) (b : Z) :
  uint8_array buf -> uint8_array (ToneSpec.adjust_brightness buf b).
Proof.
  intros H. unfold ToneSpec.adjust_brightness.
  destruct (b =? 0); [done | by apply clamp_affine_uint8].
Qed.



Lemma tone_adjuster_refines (img : ndarray) (b c : Z) :
  uint8_array img -> -255 <= b <= 255 -> -255 <= c <= 255 -> c <> 131 ->
  apply_brightness_contrast (Some img) b c = Ok (ToneSpec.adjust img b c).
Proof.
  intros Himg Hb Hc Hne.
  pose proof (brightness_scalars_in_range b Hb) as Hbs.
  pose proof (contrast_scalar_in_range c Hc) as Hcs.
  unfold brightness_scalars_ok in Hbs. unfold contrast_scalar_ok in Hcs.
  apply andb_true_iff in Hbs as [Hb1 Hb2].
  apply bool_decide_eq_true in Hb1, Hb2.
  apply orb_true_iff in Hcs as [Hcs|Hcs];
    apply bool_decide_eq_true in Hcs; [done|].
  pose proof (adjust_brightness_uint8 img b Himg) as Hmid.
  unfold apply_brightness_contrast, ToneSpec.adjust.
  unfold ToneSpec.adjust_brightness in *. unfold ToneSpec.adjust_contrast.
  destruct (b =? 0); cbn [negb]; rstep.
  - destruct (c =? 0); [done|]. cbn [negb]; rstep.
    rewrite Hcs. rstep. by rewrite addWeighted_self.
  - destruct (0 <? b); rewrite Hb1; rstep; rewrite Hb2; rstep;
      rewrite addWeighted_self by done; rstep.
    all: destruct (c =? 0); [done|]; cbn [negb]; rstep.
    all: rewrite Hcs; rstep; by rewrite addWeighted_self.
Qed.

(** The brightness step of the code succeeds on a uint8 array. *)
Lemma brightness_step_ok (img : ndarray) (b : Z) :
  uint8_array img -> -255 <= b <= 255 ->
  apply_brightness_contrast (Some img) b 0
  = Ok (ToneSpec.adjust_brightness img b).
Proof.
  intros Himg Hb.
  rewrite tone_adjuster_refines by (done || lia). reflexivity.
Qed.

End ToneAdjuster.





(** C8.  At contrast 131 the denominator [127 * (131 - contrast)] of [f]
    is zero and the division raises: for every uint8 buffer and every
    brightness in [-255, 255], [apply_brightness_contrast] raises
    [ZeroDivisionError].  Nothing on the way from [main] rejects the value
    or treats it apart: a run with [-c 131] over a directory with an image
    ends with that exception (exit status 1). *)
Theorem contrast_131_zero_division (img : ndarray) (brightness : Z) :
  uint8_array img ->
  -255 <= brightness <= 255 ->
  127 * (131 - 131) = 0
  /\ truediv (131 * (131 + 127)) (127 * (131 - 131)) = Raise ZeroDivisionError
  /\ apply_brightness_contrast (Some img) brightness 131
     = Raise ZeroDivisionError
  /\ (let '(r, _) := main Sample.assembler (mk_args ["d"] None 0 131)
                          Sample.world_abc in
      r = Raise ZeroDivisionError /\ exit_status r = 1).
Proof.
  intros Himg Hb. split; [reflexivity|]. split; [reflexivity|]. split.
  - pose proof (brightness_scalars_in_range brightness Hb) as Hbs.
    unfold brightness_scalars_ok in Hbs.
    apply andb_true_iff in Hbs as [Hb1 Hb2].
    apply bool_decide_eq_true in Hb1, Hb2.
    unfold apply_brightness_contrast.
    destruct (brightness =? 0); cbn [negb]; rstep.
    + reflexivity.
    + destruct (0 <? brightness); rewrite Hb1; rstep; rewrite Hb2; rstep;
        rewrite addWeighted_self by done; rstep; reflexivity.
  - vm_compute. split; reflexivity.
Qed.

Lemma contrast_131_zero_division_witness :
  127 * (131 - 131) = 0
  /\ truediv (131 * (131 + 127)) (127 * (131 - 131)) = Raise ZeroDivisionError
  /\ apply_brightness_contrast (Some Sample.img) 50 131
     = Raise ZeroDivisionError
  /\ (let '(r, _) := main Sample.assembler (mk_args ["d"] None 0 131)
                          Sample.world_abc in
      r = Raise ZeroDivisionError /\ exit_status r = 1).
Proof.
  apply (contrast_131_zero_division Sample.img 50).
  - split; [reflexivity | repeat constructor; lia].
  - lia.
Defined.

(** ** [get_img_name] *)

Section GetImgName.
Import re.

Lemma tail_match (s : string) (caps : captures) :
  no_newline s = true ->
  mtch tail_re s caps k0 = if is_ext s then Some ((2%nat, s) :: caps) else None.
Proof.
  intros Hnl. unfold tail_re, is_ext.
  destruct s as [|c1 [|c2 [|c3 [|c4 [|c5 rest]]]]].
  1-4: cbn; repeat (case_bool_decide; try reflexivity); done.
  - cbn. repeat (case_bool_decide; simplify_eq; try reflexivity).
  - cbn. cbn in Hnl. repeat (case_bool_decide; simplify_eq; try reflexivity); cbn in Hnl; try done.
Qed.
Lemma ext_of_is_ext s e : ext_of s = Some e -> is_ext e = true.
Proof.
  induction s as [|c s IH]; [done|]. cbn [ext_of].
  destruct (ext_of s); [intros [= ->]; eauto|].
  destruct (is_ext (String c s)) eqn:E; [by intros [= <-]|done].
Qed.

Lemma no_newline_ext_of s e :
  no_newline s = true -> ext_of s = Some e -> no_newline e = true.
Proof.
  induction s as [|c s IH]; [done|]. cbn [ext_of no_newline].
  intros [Hc Hs]%andb_true_iff.
  destruct (ext_of s); [intros [= ->]; eauto|].
  destruct (is_ext (String c s)); [|done].
  intros [= <-]. cbn. by rewrite Hc, Hs.
Qed.

Lemma is_ext_no_newline t : is_ext t = true -> no_newline t = true.
Proof.
  unfold is_ext. intros [H|H]%orb_true_iff; apply bool_decide_eq_true in H;
    by subst.
Qed.

Lemma star_dot_ext (s : string) (k : string -> option captures) :
  no_newline s = true ->
  (forall t, no_newline t = true -> is_ext t = false -> k t = None) ->
  (forall t, is_ext t = true -> is_Some (k t)) ->
  star Dot s k = match ext_of s with Some e => k e | None => None end.
Proof.
  intros Hnl Hno Hyes. induction s as [|c s IH].
  - cbn. by apply Hno.
  - pose proof Hnl as Hnl'.
    cbn [no_newline] in Hnl. apply andb_true_iff in Hnl as [Hc Hs].
    cbn [star ext_of item_ok]. rewrite Hc, (IH Hs).
    destruct (ext_of s) as [e|] eqn:He.
    + destruct (Hyes e (ext_of_is_ext _ _ He)) as [r ->]. done.
    + destruct (is_ext (String c s)) eqn:E; [done|]. by apply Hno.
Qed.

Lemma mtch_img_pattern (s : string) :
  no_newline s = true ->
  mtch img_pattern s [] k0
  = match ext_of s with
    | Some e => Some [(2%nat, e); (1%nat, consumed s e)]
    | None => None
    end.
Proof.
  intros Hnl. unfold img_pattern.
  change (mtch _ s [] k0)
    with (star Dot s (fun s' => mtch tail_re s' [(1%nat, consumed s s')] k0)).
  rewrite star_dot_ext; [| done | |].
  - destruct (ext_of s) as [e|] eqn:He; [|done].
    rewrite tail_match by eauto using no_newline_ext_of.
    by rewrite (ext_of_is_ext _ _ He).
  - intros t Ht Hext. rewrite tail_match by done. by rewrite Hext.
  - intros t Hext. rewrite tail_match by by apply is_ext_no_newline.
    rewrite Hext. by eexists.
Qed.

Lemma ext_of_tail c s : ext_of (String c s) = None -> ext_of s = None.
Proof. cbn [ext_of]. by destruct (ext_of s). Qed.

Lemma search_img_pattern (s : string) :
  no_newline s = true ->
  search img_pattern s
  = match ext_of s with
    | Some e => Some [(2%nat, e); (1%nat, consumed s e)]
    | None => None
    end.
Proof.
  intros Hnl. induction s as [|c s IH].
  - reflexivity.
  - unfold search; fold search. change (fun (_ : string) (caps : captures) => Some caps) with k0.
    rewrite mtch_img_pattern by done.
    destruct (ext_of (String c s)) as [e|] eqn:He; [done|].
    cbn [no_newline] in Hnl. apply andb_true_iff in Hnl as [_ Hs].
    rewrite (IH Hs). by rewrite (ext_of_tail _ _ He).
Qed.

Lemma ext_of_app (b e : string) : is_ext e = true -> ext_of (b +:+ e) = Some e.
Proof.
  intros He. induction b as [|c b IH].
  - unfold is_ext in He. apply orb_true_iff in He as [H|H];
      apply bool_decide_eq_true in H; by subst.
  - change (String c b +:+ e) with (String c (b +:+ e)).
    cbn [ext_of]. by rewrite IH.
Qed.

Lemma ext_of_split (s e : string) :
  ext_of s = Some e -> exists b, s = b +:+ e.
Proof.
  revert e. induction s as [|c s IH]; intros e; [done|]. cbn [ext_of].
  destruct (ext_of s) as [e'|] eqn:He.
  - intros [= ->]. destruct (IH e eq_refl) as [b ->]. by exists (String c b).
  - destruct (is_ext (String c s)); [|done]. intros [= <-]. by exists EmptyString.
Qed.

Lemma consumed_app (b e : string) : consumed (b +:+ e) e = b.
Proof.
  unfold consumed. induction b as [|c b IH].
  - change (EmptyString +:+ e) with e. rewrite Nat.sub_diag. by destruct e.
  - change (String c b +:+ e) with (String c (b +:+ e)).
    cbn [String.length].
    assert (String.length e <= String.length (b +:+ e))%nat as Hle.
    { clear. induction b as [|c b IH]; cbn; [change (EmptyString +:+ e) with e; lia|].
      change (String c b +:+ e) with (String c (b +:+ e)). cbn. lia. }
    replace (S (String.length (b +:+ e)) - String.length e)%nat
      with (S (String.length (b +:+ e) - String.length e)) by lia.
    cbn [String.substring]. by rewrite IH.
Qed.

(** On a name without newline: the base name when the name ends with [.png] or [.jpg]. *)
Lemma get_img_name_ext (b e : string) :
  no_newline (b +:+ e) = true -> is_ext e = true ->
  get_img_name (b +:+ e) = Some b.
Proof.
  intros Hnl He. unfold get_img_name.
  rewrite search_img_pattern by done. rewrite ext_of_app by done.
  cbn [group Nat.eqb]. by rewrite consumed_app.
Qed.

Lemma get_img_name_Some (n b : string) :
  no_newline n = true ->
  get_img_name n = Some b <-> (n = b +:+ ".png" \/ n = b +:+ ".jpg").
Proof.
  intros Hnl. split.
  - unfold get_img_name. rewrite search_img_pattern by done.
    destruct (ext_of n) as [e|] eqn:He; [|done].
    cbn [group Nat.eqb]. intros [= <-].
    destruct (ext_of_split _ _ He) as [b ->]. rewrite consumed_app.
    apply ext_of_is_ext in He. unfold is_ext in He.
    apply orb_true_iff in He as [H|H]; apply bool_decide_eq_true in H; subst; auto.
  - intros [->| ->]; by apply get_img_name_ext.
Qed.

Lemma get_img_name_None (n : string) :
  no_newline n = true ->
  get_img_name n = None <-> ~ exists b, n = b +:+ ".png" \/ n = b +:+ ".jpg".
Proof.
  intros Hnl. split.
  - intros Hnone [b Hb]. apply (get_img_name_Some n b Hnl) in Hb. congruence.
  - intros Hno. destruct (get_img_name n) as [b|] eqn:E; [|done].
    destruct Hno. exists b. by apply get_img_name_Some.
Qed.
End GetImgName.

(** ** The confirmation loop *)

Section Confirm.

Lemma bind_run {A B} (c : M A) (k : A -> M B) (w : world) :
  (c ≫= k) w = match c w with
               | (Ok a, w') => k a w'
               | (Raise e, w') => (Raise e, w')
               end.
Proof. reflexivity. Qed.

Lemma seq_run {A B} (c : M A) (k : M B) (w : world) :
  (c;; k) w = match c w with
              | (Ok _, w') => k w'
              | (Raise e, w') => (Raise e, w')
              end.
Proof. reflexivity. Qed.

Lemma keeps_asking_start : keeps_asking "_" = true.
Proof. reflexivity. Qed.

Lemma keeps_asking_false (line : string) :
  keeps_asking line = false <->
  normalise line = "y" \/ normalise line = "n" \/ line = "".
Proof.
  unfold keeps_asking, PyStr.eqb.
  rewrite !andb_false_iff, !negb_false_iff, !bool_decide_eq_true. tauto.
Qed.

(** The loop looks at [user_cont] only to decide whether to ask. *)
Lemma confirm_loop_asking (msg u : string) (lines : list string) :
  keeps_asking u = true ->
  confirm_loop msg u lines = confirm_loop msg "_" lines.
Proof. intros Hu. destruct lines; cbn [confirm_loop]; by rewrite Hu. Qed.

Lemma confirm_loop_no (msg line : string) (rest : list string) :
  normalise line = "n" ->
  confirm_loop msg "_" (line :: rest)
  = (Raise (SystemExit 0), rest, [EvPrompt msg; EvPrint "Operation canceled."]).
Proof.
  intros Hn. cbn [confirm_loop]. rewrite keeps_asking_start.
  unfold PyStr.eqb. by rewrite Hn.
Qed.

Lemma confirm_loop_yes (msg line : string) (rest : list string) :
  normalise line = "y" \/ line = "" ->
  confirm_loop msg "_" (line :: rest) = (Ok tt, rest, [EvPrompt msg]).
Proof.
  intros Hy. cbn [confirm_loop]. rewrite keeps_asking_start.
  assert (PyStr.eqb (normalise line) "n" = false) as ->.
  { apply bool_decide_eq_false. destruct Hy as [H| ->]; [by rewrite H | done]. }
  assert (keeps_asking line = false) as Hk by (apply keeps_asking_false; tauto).
  destruct rest; cbn [confirm_loop]; by rewrite Hk.
Qed.

Lemma confirm_loop_again (msg line : string) (rest : list string) :
  keeps_asking line = true ->
  confirm_loop msg "_" (line :: rest)
  = (let '(r, rest', evs) := confirm_loop msg "_" rest in
     (r, rest', EvPrompt msg :: evs)).
Proof.
  intros Hk. cbn [confirm_loop]. rewrite keeps_asking_start.
  assert (PyStr.eqb (normalise line) "n" = false) as ->.
  { apply bool_decide_eq_false. intros Hn.
    assert (keeps_asking line = false) by (apply keeps_asking_false; tauto).
    congruence. }
  by rewrite (confirm_loop_asking msg line rest Hk).
Qed.

(** The loop written on [input], [print] and [exit] is [confirm_loop]. *)
Lemma confirm_rounds_loop (fuel : nat) (msg user_cont : string) (w : world) :
  (length (stdin w) < fuel)%nat ->
  confirm_rounds fuel msg user_cont w
  = (let '(r, rest, evs) := confirm_loop msg user_cont (stdin w) in
     (r, {| fs := fs w; stdin := rest; console := console w ++ evs |})).
Proof.
  revert user_cont w. induction fuel as [|fuel IH]; intros u w Hfuel; [lia|].
  destruct w as [m lines shown]. cbn [stdin fs console] in *.
  destruct lines as [|line rest]; cbn [confirm_rounds confirm_loop];
    destruct (keeps_asking u); try (by rewrite app_nil_r).
  - reflexivity.
  - rewrite bind_run. cbn [input stdin fs console].
    destruct (PyStr.eqb (normalise line) "n").
    + rewrite !seq_run. unfold print, emit, exit, raise.
      cbn [fs stdin console]. by rewrite <- app_assoc.
    + rewrite seq_run. cbn [mret M_ret]. rewrite IH by (cbn in *; lia).
      cbn [stdin fs console].
      destruct (confirm_loop msg line rest) as [[r rest'] evs].
      by rewrite <- app_assoc.
Qed.

Lemma confirm_rounds_enough (msg : string) (w : world) :
  confirm_rounds (S (length (stdin w))) msg "_" w = confirm msg w.
Proof. rewrite confirm_rounds_loop by lia. reflexivity. Qed.

(** A line of blanks is not the empty line: the question comes again. *)
Lemma blank_line_keeps_asking : keeps_asking " " = true.
Proof. reflexivity. Qed.

Lemma confirm_loop_outcome (msg : string) (lines : list string) :
  let '(r, rest, evs) := confirm_loop msg "_" lines in
  confirm_outcome msg lines r rest evs.
Proof.
  induction lines as [|line lines IH].
  - cbn. by constructor.
  - destruct (keeps_asking line) eqn:Hk.
    + rewrite confirm_loop_again by done.
      destruct (confirm_loop msg "_" lines) as [[r rest] evs].
      inversion IH as [Hall|pre l rest' -> Hall Hn|pre l rest' -> Hall Hy]; subst.
      * apply (confirm_eof msg (line :: lines)). by constructor.
      * apply (confirm_cancel msg _ (line :: pre) l rest); [done| by constructor | done].
      * apply (confirm_proceed msg _ (line :: pre) l rest); [done| by constructor | done].
    + apply keeps_asking_false in Hk as [Hy|[Hn|He]].
      * rewrite confirm_loop_yes by tauto.
        apply (confirm_proceed msg _ [] line lines); [done|constructor|tauto].
      * rewrite confirm_loop_no by done.
        apply (confirm_cancel msg _ [] line lines); [done|constructor|done].
      * rewrite confirm_loop_yes by tauto.
        apply (confirm_proceed msg _ [] line lines); [done|constructor|tauto].
Qed.

End Confirm.

(** ** [check_valid_args] and the overwrite prompt *)

Section CheckValidArgs.

Lemma is_dir_exists (m : filesystem) (p : path) :
  is_dir m p = true -> path_exists m p = true.
Proof.
  unfold is_dir, path_exists. intros H%bool_decide_eq_true.
  apply bool_decide_eq_true. rewrite H. by eexists.
Qed.

(** [check_valid_args] as one case analysis: the prompt, if any, comes
    first; the directory check follows only when the prompt returned. *)
Lemma check_valid_args_run (imgs_path output_path : path) (w : world) :
  check_valid_args imgs_path output_path w
  = (let '(r, w1) :=
       if path_exists (fs w) output_path
       then confirm (overwrite_msg output_path) w else (Ok tt, w) in
     match r with
     | Ok _ => (if is_dir (fs w) imgs_path then Ok tt
                else Raise (invalid_input imgs_path), w1)
     | Raise e => (Raise e, w1)
     end).
Proof.
  unfold check_valid_args. rewrite bind_run. unfold Path_exists at 1.
  assert (forall w1 : world, fs w1 = fs w ->
    (Path_is_dir imgs_path ≫= λ imgs_is_dir : bool,
      (if negb imgs_is_dir then raise (invalid_input imgs_path) else mret ());;
      Path_exists imgs_path ≫= λ imgs_there : bool,
        (if negb imgs_there
         then raise (ValueError ("Input path in argument does not exist: "
                                 +:+ path_str imgs_path))
         else mret ())) w1
    = (if is_dir (fs w) imgs_path then Ok tt else Raise (invalid_input imgs_path), w1))
    as Hrest.
  { intros w1 Hfs. rewrite bind_run. unfold Path_is_dir. rewrite Hfs.
    destruct (is_dir (fs w) imgs_path) eqn:Hd; cbn [negb]; [|done].
    rewrite bind_run. unfold mret at 1, M_ret. rewrite bind_run.
    unfold Path_exists. rewrite Hfs, (is_dir_exists _ _ Hd). done. }
  destruct (path_exists (fs w) output_path).
  - rewrite bind_run. unfold confirm.
    destruct (confirm_loop _ _ _) as [[[[]|e] rest] evs]; [|done].
    by rewrite Hrest.
  - rewrite bind_run. unfold mret at 1, M_ret. by rewrite Hrest.
Qed.

End CheckValidArgs.

Lemma main_run (convert : filesystem -> list path -> result (list Z))
    (a : args) (w : world) :
  main convert a w
  = match check_valid_args (arg_imgs_path a) (main_output_path a) w with
    | (Ok _, w0) =>
        match convert_imgs (arg_imgs_path a) None "__temp"
                (arg_brightness a) (arg_contrast a) w0 with
        | (Ok converted_dir, w1) =>
            try_finally
              (out ← lift (get_output_path (main_output_path a));
               imgs_to_pdf convert converted_dir out)
              (delete_temp_imgs converted_dir) w1
        | (Raise e, w1) => (Raise e, w1)
        end
    | (Raise e, w0) => (Raise e, w0)
    end.
Proof.
  unfold main. rewrite bind_run.
  destruct (check_valid_args _ _ w) as [[[]|e] w0]; [|done].
  by rewrite bind_run.
Qed.

(** C9.  At the output-overwrite prompt: an answer that is "n" after
    lower-casing and stripping white space prints the cancellation message
    and ends the process with exit status 0, the file system untouched; an
    answer that is "y" after the same normalisation, or the empty line,
    lets the run go on; any other answer makes the prompt come again. *)
Theorem overwrite_prompt_answers
    (convert : filesystem -> list path -> result (list Z))
    (a : args) (m : filesystem) (line : string) (rest : list string)
    (shown : list event) :
  let imgs_path := arg_imgs_path a in
  let output_path := main_output_path a in
  let ask := EvPrompt (overwrite_msg output_path) in
  let w := {| fs := m; stdin := line :: rest; console := shown |} in
  path_exists m output_path = true ->
  (normalise line = "n" ->
   let w' := {| fs := m; stdin := rest;
                console := shown ++ [ask; EvPrint "Operation canceled."] |} in
   check_valid_args imgs_path output_path w = (Raise (SystemExit 0), w')
   /\ main convert a w = (Raise (SystemExit 0), w')
   /\ exit_status (main convert a w).1 = 0)
  /\ (normalise line = "y" \/ line = "" ->
      check_valid_args imgs_path output_path w
      = (if is_dir m imgs_path then Ok tt else Raise (invalid_input imgs_path),
         {| fs := m; stdin := rest; console := shown ++ [ask] |}))
  /\ (normalise line <> "y" -> normalise line <> "n" -> line <> "" ->
      check_valid_args imgs_path output_path w
      = check_valid_args imgs_path output_path
          {| fs := m; stdin := rest; console := shown ++ [ask] |}).
Proof.
  intros imgs_path output_path ask w Hout. split; [|split].
  - intros Hn w'.
    assert (check_valid_args imgs_path output_path w = (Raise (SystemExit 0), w'))
      as Hcheck.
    { rewrite check_valid_args_run. cbn [fs w]. rewrite Hout.
      unfold confirm. cbn [stdin w]. by rewrite confirm_loop_no. }
    split; [done|]. rewrite main_run.
    fold imgs_path output_path. by rewrite Hcheck.
  - intros Hy. rewrite check_valid_args_run. cbn [fs w]. rewrite Hout.
    unfold confirm. cbn [stdin w]. by rewrite confirm_loop_yes.
  - intros Hy Hn He. rewrite !check_valid_args_run. cbn [fs w]. rewrite Hout.
    unfold confirm. cbn [stdin console fs w].
    rewrite confirm_loop_again.
    2:{ destruct (keeps_asking line) eqn:Hk; [done|].
        apply keeps_asking_false in Hk. tauto. }
    destruct (confirm_loop _ "_" rest) as [[r rest'] evs].
    by rewrite <- app_assoc.
Qed.

Lemma overwrite_prompt_answers_witness :
  let a := mk_args ["d"] (Some ["d"; "c.txt"]) 0 0 in
  let w := {| fs := Sample.fs_abc; stdin := [" N "]; console := [] |} in
  let w' := {| fs := Sample.fs_abc; stdin := [];
               console := [EvPrompt (overwrite_msg ["d"; "c.txt"]);
                           EvPrint "Operation canceled."] |} in
  check_valid_args ["d"] ["d"; "c.txt"] w = (Raise (SystemExit 0), w')
  /\ main Sample.assembler a w = (Raise (SystemExit 0), w')
  /\ exit_status (main Sample.assembler a w).1 = 0.
Proof.
  intros a w w'.
  apply (overwrite_prompt_answers Sample.assembler a Sample.fs_abc " N " [] []).
  - vm_compute. reflexivity.
  - vm_compute. reflexivity.
Defined.



(** ** Paths and the file system *)

Section FS.
Implicit Types (m : filesystem) (p q d : path).

Lemma parent_join p n : parent (p /: n) = p.
Proof.
  unfold parent, path_join. rewrite length_app. cbn.
  replace (length p + 1 - 1)%nat with (length p) by lia.
  by rewrite take_app_length.
Qed.

Lemma name_join p n : name (p /: n) = n.
Proof. unfold name, path_join. by rewrite last_snoc. Qed.

Lemma join_ne_nil p n : p /: n <> [].
Proof. unfold path_join. by destruct p. Qed.

Lemma is_child_join d n : is_child d (d /: n) = true.
Proof.
  unfold is_child. rewrite parent_join.
  rewrite !bool_decide_eq_true_2; [done..|apply join_ne_nil].
Qed.

Lemma is_child_inv d q : is_child d q = true -> q = d /: name q.
Proof.
  unfold is_child. intros [Hne Hpar]%andb_true_iff.
  apply bool_decide_eq_true in Hne, Hpar.
  destruct (decide (q = [])) as [|_]; [done|].
  destruct q as [|x q'] using rev_ind; [done|].
  change (q' ++ [x]) with (q' /: x) in *.
  rewrite parent_join in Hpar. rewrite name_join. by subst.
Qed.

Lemma elem_of_children m d q :
  q ∈ children m d <-> is_Some (m !! q) /\ is_child d q = true.
Proof.
  unfold children. rewrite list_elem_of_filter, elem_of_elements, elem_of_dom.
  tauto.
Qed.

Lemma NoDup_children m d : NoDup (children m d).
Proof. unfold children. apply NoDup_filter, NoDup_elements. Qed.

Lemma node_at_join m p n : node_at m (p /: n) = m !! (p /: n).
Proof. unfold node_at, path_join. by destruct p. Qed.

Lemma is_dir_join m p n : is_dir m (p /: n) = bool_decide (m !! (p /: n) = Some Dir).
Proof. unfold is_dir. by rewrite node_at_join. Qed.
End FS.

Section Mkdir.
Implicit Types (m : filesystem) (p q d : path).

Lemma path_exists_nil m : path_exists m [] = true.
Proof. reflexivity. Qed.

Lemma os_mkdir_Ok p m m' :
  os_mkdir p m = Ok m' ->
  m' = <[p := Dir]> m /\ path_exists m p = false /\ is_dir m (parent p) = true.
Proof.
  unfold os_mkdir. destruct (path_exists m p) eqn:Hex; [done|].
  destruct (is_dir m (parent p)) eqn:Hd; [by intros [= <-]|].
  by destruct (under_file m p).
Qed.

Lemma is_dir_insert_Dir m p : path_exists m p = false -> is_dir (<[p := Dir]> m) p = true.
Proof.
  intros Hex. destruct p as [|x p]; [by rewrite path_exists_nil in Hex|].
  unfold is_dir. cbn. rewrite lookup_insert_eq. by apply bool_decide_eq_true.
Qed.

Lemma mkdir_oserror_Ok p exist_ok e m m' :
  mkdir_oserror p exist_ok e m = Ok m' -> m' = m /\ exist_ok = true /\ is_dir m p = true.
Proof.
  unfold mkdir_oserror. destruct exist_ok, (is_dir m p); cbn; try done.
  by intros [= <-].
Qed.

Lemma mkdir_leaf_is_dir p exist_ok m m' :
  mkdir_leaf p exist_ok m = Ok m' -> is_dir m' p = true.
Proof.
  unfold mkdir_leaf. destruct (os_mkdir p m) as [m1|e] eqn:Hos.
  - intros [= <-]. apply os_mkdir_Ok in Hos as (-> & Hex & _).
    by apply is_dir_insert_Dir.
  - destruct e; try done; by intros (-> & _ & ?)%mkdir_oserror_Ok.
Qed.

Lemma mkdir_rev_is_dir rp parents exist_ok m m' :
  mkdir_rev rp parents exist_ok m = Ok m' -> is_dir m' (reverse rp) = true.
Proof.
  destruct rp as [|x rp]; cbn [mkdir_rev].
  - destruct (os_mkdir (reverse []) m) as [m1|e] eqn:Hos.
    + intros [= <-]. apply os_mkdir_Ok in Hos as (-> & Hex & _).
      by apply is_dir_insert_Dir.
    + destruct e; try done; by intros (-> & _ & ?)%mkdir_oserror_Ok.
  - destruct (os_mkdir (reverse (x :: rp)) m) as [m1|e] eqn:Hos.
    + intros [= <-]. apply os_mkdir_Ok in Hos as (-> & Hex & _).
      by apply is_dir_insert_Dir.
    + destruct e; try (by intros (-> & _ & ?)%mkdir_oserror_Ok).
      destruct parents; [|done].
      destruct (mkdir_rev rp true true m) as [m1|e]; [|done].
      rewrite rbind_ok. apply mkdir_leaf_is_dir.
Qed.

Lemma fs_mkdir_is_dir p parents exist_ok m m' :
  fs_mkdir p parents exist_ok m = Ok m' -> is_dir m' p = true.
Proof.
  unfold fs_mkdir. intros H%mkdir_rev_is_dir. by rewrite reverse_involutive in H.
Qed.

Lemma mkdir_rev_unfold rp parents exist_ok m :
  mkdir_rev rp parents exist_ok m
  = match os_mkdir (reverse rp) m with
    | Ok m' => Ok m'
    | Raise FileNotFoundError =>
        match rp with
        | [] => Raise FileNotFoundError
        | _ :: rparent =>
            if parents then
              let? m1 := mkdir_rev rparent true true m in
              mkdir_leaf (reverse rp) exist_ok m1
            else Raise FileNotFoundError
        end
    | Raise e => mkdir_oserror (reverse rp) exist_ok e m
    end.
Proof. by destruct rp. Qed.

(** [mkdir] of a path that is there: nothing changes for a directory under
    [exist_ok], [FileExistsError] otherwise. *)
Lemma fs_mkdir_exists p parents exist_ok m :
  path_exists m p = true ->
  fs_mkdir p parents exist_ok m
  = if exist_ok && is_dir m p then Ok m else Raise FileExistsError.
Proof.
  intros Hex. unfold fs_mkdir. rewrite mkdir_rev_unfold, reverse_involutive.
  unfold os_mkdir. rewrite Hex. unfold mkdir_oserror.
  by destruct exist_ok, (is_dir m p).
Qed.

(** [mkdir] of a missing entry of a directory: the entry is made. *)
Lemma fs_mkdir_fresh p parents exist_ok m :
  path_exists m p = false -> is_dir m (parent p) = true ->
  fs_mkdir p parents exist_ok m = Ok (<[p := Dir]> m).
Proof.
  intros Hex Hd. unfold fs_mkdir. rewrite mkdir_rev_unfold, reverse_involutive.
  unfold os_mkdir. by rewrite Hex, Hd.
Qed.

End Mkdir.

Section ConvertMkdir.
Implicit Types (m : filesystem) (p q d : path) (w : world).

Lemma fs_op_run (op : filesystem -> result filesystem) w :
  fs_op op w = match op (fs w) with
               | Ok m' => (Ok tt, set_fs m' w)
               | Raise e => (Raise e, w)
               end.
Proof. reflexivity. Qed.

Lemma is_file_spec m p : is_file m p = true <-> exists c, node_at m p = Some (File c).
Proof.
  unfold is_file. destruct (node_at m p) as [[c|]|]; split; try done; eauto.
  all: by intros [c [=]].
Qed.

Lemma is_file_exists m p : is_file m p = true -> path_exists m p = true /\ is_dir m p = false.
Proof.
  intros [c Hc]%is_file_spec. unfold path_exists, is_dir. rewrite Hc. split.
  - apply bool_decide_eq_true. by eexists.
  - by apply bool_decide_eq_false.
Qed.

(** An existing directory is taken as it is, without a question. *)
Lemma convert_imgs_mkdir_dir p w :
  is_dir (fs w) p = true -> convert_imgs_mkdir p w = (Ok tt, w).
Proof.
  intros Hd. unfold convert_imgs_mkdir, try_except, Path_mkdir.
  rewrite fs_op_run, fs_mkdir_exists by by apply is_dir_exists.
  rewrite Hd. by destruct w.
Qed.

(** A missing scratch entry of a directory is made, without a question. *)
Lemma convert_imgs_mkdir_fresh p w :
  path_exists (fs w) p = false -> is_dir (fs w) (parent p) = true ->
  convert_imgs_mkdir p w = (Ok tt, set_fs (<[p := Dir]> (fs w)) w).
Proof.
  intros Hex Hd. unfold convert_imgs_mkdir, try_except, Path_mkdir.
  by rewrite fs_op_run, fs_mkdir_fresh.
Qed.

(** A regular file in the way: the handler runs. *)
Lemma convert_imgs_mkdir_file p w :
  is_file (fs w) p = true ->
  convert_imgs_mkdir p w
  = (confirm (overwrite_msg p);; Path_unlink p;; Path_mkdir p true false) w.
Proof.
  intros [Hex Hd]%is_file_exists. unfold convert_imgs_mkdir, try_except.
  unfold Path_mkdir at 1. rewrite fs_op_run, fs_mkdir_exists by done.
  by rewrite Hd.
Qed.

Lemma convert_imgs_mkdir_is_dir p w w' :
  convert_imgs_mkdir p w = (Ok tt, w') -> is_dir (fs w') p = true.
Proof.
  unfold convert_imgs_mkdir, try_except. unfold Path_mkdir at 1.
  rewrite fs_op_run.
  destruct (fs_mkdir p true true (fs w)) as [m'|e] eqn:Hmk.
  - intros [= <-]. cbn. by apply fs_mkdir_is_dir in Hmk.
  - destruct (is_FileExistsError e); [|done].
    rewrite seq_run. destruct (confirm _ w) as [[[]|e1] w1]; [|done].
    rewrite seq_run. destruct (Path_unlink p w1) as [[[]|e2] w2]; [|done].
    unfold Path_mkdir. rewrite fs_op_run.
    destruct (fs_mkdir p true false (fs w2)) as [m'|e3] eqn:Hmk2; [|done].
    intros [= <-]. cbn. by apply fs_mkdir_is_dir in Hmk2.
Qed.

End ConvertMkdir.

Section ConvertLoop.
Implicit Types (m : filesystem) (p q d t : path) (w : world).

Lemma node_at_insert_ne m t p v : t <> p -> node_at (<[t := v]> m) p = node_at m p.
Proof. intros Hne. destruct p; [done|]. cbn. by rewrite lookup_insert_ne. Qed.

Lemma node_at_insert_eq m t v : t <> [] -> node_at (<[t := v]> m) t = Some v.
Proof. intros Hne. destruct t; [done|]. cbn. by rewrite lookup_insert_eq. Qed.

Lemma is_dir_insert_ne m t p v : t <> p -> is_dir (<[t := v]> m) p = is_dir m p.
Proof. intros Hne. unfold is_dir. by rewrite node_at_insert_ne. Qed.

Lemma is_dir_insert_file m t c : t <> [] -> is_dir (<[t := File c]> m) t = false.
Proof.
  intros Hne. unfold is_dir. rewrite node_at_insert_eq by done.
  by apply bool_decide_eq_false.
Qed.

Lemma is_file_insert_file m t c : t <> [] -> is_file (<[t := File c]> m) t = true.
Proof. intros Hne. unfold is_file. by rewrite node_at_insert_eq. Qed.

Lemma is_file_insert_ne m t p v : t <> p -> is_file (<[t := v]> m) p = is_file m p.
Proof. intros Hne. unfold is_file. by rewrite node_at_insert_ne. Qed.

Lemma join_ne_self p n : p /: n <> p.
Proof.
  unfold path_join. intros H. apply (f_equal length) in H.
  rewrite length_app in H. cbn in H. lia.
Qed.

Lemma fs_imwrite_ok m t img :
  is_dir m (parent t) = true -> is_dir m t = false ->
  fs_imwrite t img m = (true, <[t := File (Image img)]> m).
Proof. intros Hp Ht. unfold fs_imwrite. by rewrite Hp, Ht. Qed.

Lemma targets_cons (output_dir : path) (temp_suffix : string) q entries :
  targets output_dir temp_suffix (q :: entries)
  = match get_img_name (name q) with
    | Some img_name =>
        output_dir /: (img_name +:+ temp_suffix +:+ ".jpg")
        :: targets output_dir temp_suffix entries
    | None => targets output_dir temp_suffix entries
    end.
Proof.
  unfold targets. cbn [omap list_omap]. unfold staged_path at 1.
  destruct (get_img_name (name q)); reflexivity.
Qed.

(** One round of the loop. *)
Lemma convert_img_run (input_dir output_dir : path) (temp_suffix : string)
    (b c : Z) q w :
  convert_img input_dir output_dir temp_suffix b c q w
  = match get_img_name (name q) with
    | None => (Ok tt, w)
    | Some img_name =>
        match apply_brightness_contrast
                (fs_imread (input_dir /: name q) (fs w)) b c with
        | Ok transformed_img =>
            (Ok tt,
             set_fs (fs_imwrite
                       (output_dir /: (img_name +:+ temp_suffix +:+ ".jpg"))
                       transformed_img (fs w)).2 w)
        | Raise e => (Raise e, w)
        end
    end.
Proof.
  unfold convert_img. destruct (get_img_name (name q)) as [img_name|]; [|done].
  rewrite bind_run. unfold imread. rewrite bind_run. unfold lift.
  destruct (apply_brightness_contrast _ b c) as [tr|e]; [|done].
  rewrite seq_run. unfold imwrite.
  by destruct (fs_imwrite _ tr (fs w)).
Qed.

(** What a completed loop has done: every target is a regular file, and
    nothing else has changed. *)
Lemma for_each_convert_img (input_dir output_dir : path) (temp_suffix : string)
    (b c : Z) (entries : list path) w w' :
  for_each entries (convert_img input_dir output_dir temp_suffix b c) w
  = (Ok tt, w') ->
  is_dir (fs w) output_dir = true ->
  (forall t, t ∈ targets output_dir temp_suffix entries -> is_dir (fs w) t = false) ->
  stdin w' = stdin w /\ console w' = console w
  /\ (forall p, p ∉ targets output_dir temp_suffix entries ->
                fs w' !! p = fs w !! p)
  /\ (forall t, t ∈ targets output_dir temp_suffix entries ->
                is_file (fs w') t = true).
Proof.
  revert w. induction entries as [|q entries IH]; intros w Hrun Hod Htg.
  - cbn in Hrun. injection Hrun as <-. split; [done|]. split; [done|].
    split; [done|]. intros t Ht. by apply elem_of_nil in Ht.
  - cbn [for_each] in Hrun. rewrite seq_run, convert_img_run in Hrun.
    rewrite targets_cons in *.
    destruct (get_img_name (name q)) as [img_name|] eqn:Hname.
    + destruct (apply_brightness_contrast _ b c) as [tr|e]; [|done].
      set (t0 := output_dir /: (img_name +:+ temp_suffix +:+ ".jpg")) in *.
      assert (t0 <> []) as Hne by apply join_ne_nil.
      rewrite fs_imwrite_ok in Hrun.
      2:{ unfold t0. by rewrite parent_join. }
      2:{ apply Htg. left. }
      cbn [snd] in Hrun.
      apply IH in Hrun as (Hin & Hcon & Hother & Hfiles).
      * cbn in Hin, Hcon. split; [done|]. split; [done|]. split.
        -- intros p Hp. rewrite Hother by (intros ?; apply Hp; by right).
           cbn. apply lookup_insert_ne. intros ->. apply Hp. left.
        -- intros t Ht. destruct (decide (t ∈ targets output_dir temp_suffix entries)) as [Hin'|Hout'].
           ++ by apply Hfiles.
           ++ apply elem_of_cons in Ht as [->|Ht]; [|done].
              unfold is_file. destruct t0 as [|x t0']; [done|]. cbn.
              rewrite Hother by done. cbn. by rewrite lookup_insert_eq.
      * cbn. rewrite is_dir_insert_ne; [done|]. apply join_ne_self.
      * intros t Ht. cbn. destruct (decide (t0 = t)) as [<-|Hne'].
        -- by apply is_dir_insert_file.
        -- rewrite is_dir_insert_ne by done. apply Htg. by right.
    + by apply IH in Hrun.
Qed.

End ConvertLoop.

Section ScratchDir.
Implicit Types (m : filesystem) (p q d t : path) (w : world).

Lemma node_at_delete_ne m t p : t <> p -> node_at (delete t m) p = node_at m p.
Proof. intros Hne. destruct p; [done|]. cbn. by rewrite lookup_delete_ne. Qed.

Lemma path_exists_delete m t : t <> [] -> path_exists (delete t m) t = false.
Proof.
  intros Hne. destruct t; [done|]. unfold path_exists. cbn.
  rewrite lookup_delete_eq. apply bool_decide_eq_false. by intros [? [=]].
Qed.

Lemma is_dir_delete_ne m t p : t <> p -> is_dir (delete t m) p = is_dir m p.
Proof. intros Hne. unfold is_dir. by rewrite node_at_delete_ne. Qed.

Lemma wf_fs_lookup m q :
  wf_fs m -> is_Some (m !! q) -> q <> [] /\ is_dir m (parent q) = true.
Proof. intros Hwf [x Hq]. exact (Hwf q x Hq). Qed.

Lemma confirm_fs msg w r w' : confirm msg w = (r, w') -> fs w' = fs w.
Proof.
  unfold confirm. destruct (confirm_loop _ _ _) as [[r0 rest] evs].
  by intros [= _ <-].
Qed.

(** The handler of [convert_imgs], once the answer is in: the file goes
    and a directory takes its place. *)
Lemma replace_file_by_dir p w :
  is_file (fs w) p = true -> is_dir (fs w) (parent p) = true ->
  (Path_unlink p;; Path_mkdir p true false) w
  = (Ok tt, set_fs (<[p := Dir]> (delete p (fs w))) w).
Proof.
  intros Hf Hpar. pose proof Hf as [c Hc]%is_file_spec.
  assert (p <> []) as Hne by (intros ->; done).
  rewrite seq_run. unfold Path_unlink, Path_mkdir. rewrite fs_op_run.
  unfold fs_unlink. rewrite Hc. rewrite fs_op_run. cbn [fs set_fs].
  rewrite fs_mkdir_fresh; [done|by apply path_exists_delete|].
  rewrite is_dir_delete_ne; [done|].
  intros Heq. rewrite Heq in Hf. apply is_file_exists in Hf as [_ Hf]. congruence.
Qed.

Lemma convert_imgs_mkdir_not_dir p w w1 :
  is_dir (fs w) (parent p) = true -> is_dir (fs w) p = false ->
  convert_imgs_mkdir p w = (Ok tt, w1) ->
  fs w1 = <[p := Dir]> (fs w).
Proof.
  intros Hpar Hnd Hrun.
  destruct (path_exists (fs w) p) eqn:Hex.
  - assert (is_file (fs w) p = true) as Hf.
    { unfold path_exists, is_dir, is_file in *.
      apply bool_decide_eq_true in Hex as [[c|] Hn]; rewrite Hn in *; [done|].
      by rewrite bool_decide_eq_true_2 in Hnd. }
    rewrite convert_imgs_mkdir_file, seq_run in Hrun by done.
    destruct (confirm _ w) as [[[]|e] w0] eqn:Hc; [|done].
    apply confirm_fs in Hc.
    rewrite replace_file_by_dir in Hrun by by rewrite Hc.
    injection Hrun as <-. cbn. rewrite Hc. apply insert_delete_eq.
  - rewrite convert_imgs_mkdir_fresh in Hrun by done. by injection Hrun as <-.
Qed.

Lemma no_children_of_non_dir m p :
  wf_fs m -> is_dir m p = false -> children (<[p := Dir]> m) p = [].
Proof.
  intros Hwf Hnd. apply elem_of_nil_inv. intros q [Hq Hch]%elem_of_children.
  pose proof (is_child_inv _ _ Hch) as Heq.
  rewrite lookup_insert_ne in Hq.
  - apply (wf_fs_lookup _ _ Hwf) in Hq as [_ Hq].
    rewrite Heq, parent_join in Hq. congruence.
  - intros ->. symmetry in Heq. by apply join_ne_self in Heq.
Qed.

End ScratchDir.

Lemma convert_imgs_run (input_dir : path) (temp_suffix : string) (b c : Z)
    (w : world) :
  convert_imgs input_dir None temp_suffix b c w
  = match convert_imgs_mkdir (input_dir /: scratch_name) w with
    | (Ok _, w1) =>
        (convert_imgs_loop input_dir (input_dir /: scratch_name)
           temp_suffix b c;;
         mret (input_dir /: scratch_name)) w1
    | (Raise e, w1) => (Raise e, w1)
    end.
Proof.
  unfold convert_imgs. rewrite seq_run.
  by destruct (convert_imgs_mkdir _ w) as [[[]|e] w1].
Qed.



(** ** What the scratch directory holds when it is handed over *)

Section Staging.
Implicit Types (m : filesystem) (p q d t : path) (w : world).

Lemma is_ext_length e : is_ext e = true -> String.length e = 4%nat.
Proof.
  unfold is_ext. intros [H|H]%orb_true_iff; apply bool_decide_eq_true in H;
    by subst.
Qed.

Lemma stem_app b e : is_ext e = true -> stem (b +:+ e) = b.
Proof.
  intros He. unfold stem. rewrite <- (is_ext_length e He). apply consumed_app.
Qed.

Lemma get_img_name_stem n :
  no_newline n = true ->
  get_img_name n = if has_ext n then Some (stem n) else None.
Proof.
  intros Hnl. unfold get_img_name, has_ext.
  rewrite search_img_pattern by done.
  destruct (ext_of n) as [e|] eqn:He; [|done].
  cbn [re.group Nat.eqb]. destruct (ext_of_split _ _ He) as [b ->].
  rewrite consumed_app, stem_app; [done|]. by eapply ext_of_is_ext.
Qed.

Lemma string_length_app (s t : string) :
  String.length (s +:+ t) = (String.length s + String.length t)%nat.
Proof.
  induction s as [|c s IH]; [done|].
  change (String c s +:+ t) with (String c (s +:+ t)). cbn. by rewrite IH.
Qed.

Lemma string_app_inj_r (s1 s2 t : string) : s1 +:+ t = s2 +:+ t -> s1 = s2.
Proof.
  revert s2. induction s1 as [|c s1 IH]; intros [|c2 s2] H.
  - done.
  - apply (f_equal String.length) in H.
    rewrite !string_length_app in H. cbn in H. lia.
  - apply (f_equal String.length) in H.
    rewrite !string_length_app in H. cbn in H. lia.
  - change (String c (s1 +:+ t) = String c2 (s2 +:+ t)) in H.
    injection H as -> H. f_equal. by apply IH.
Qed.

Lemma staged_name_inj n1 n2 : staged_name n1 = staged_name n2 -> stem n1 = stem n2.
Proof. unfold staged_name. apply string_app_inj_r. Qed.

Lemma targets_staged (output_dir : path) (entries : list path) :
  Forall (fun q => no_newline (name q) = true) entries ->
  targets output_dir "__temp" entries
  = (fun q => output_dir /: staged_name (name q))
      <$> filter (fun q => has_ext (name q) = true) entries.
Proof.
  induction 1 as [|q entries Hq _ IH]; [done|].
  rewrite targets_cons, get_img_name_stem, IH by done.
  rewrite filter_cons. destruct (has_ext (name q)) eqn:E.
  - rewrite decide_True by done. done.
  - rewrite decide_False by done. done.
Qed.

End Staging.

Section Handover.
Implicit Types (m : filesystem) (p q d t : path) (w : world).

Lemma is_file_is_Some m t : is_file m t = true -> t <> [] -> is_Some (m !! t).
Proof.
  intros [c Hc]%is_file_spec Hne. destruct t; [done|]. cbn in Hc. by eexists.
Qed.

Lemma is_dir_true m p : is_dir m p = true <-> node_at m p = Some Dir.
Proof. unfold is_dir. apply bool_decide_eq_true. Qed.

Lemma has_ext_scratch_name : has_ext scratch_name = false.
Proof. reflexivity. Qed.

Lemma children_insert_dir m d n q :
  q ∈ children (<[d /: n := Dir]> m) d <-> q = d /: n \/ q ∈ children m d.
Proof.
  rewrite !elem_of_children. destruct (decide (q = d /: n)) as [->|Hne].
  - rewrite lookup_insert_eq, is_child_join. split; [by left|]. by eauto.
  - rewrite lookup_insert_ne by done. tauto.
Qed.

(** The loop of [convert_imgs] run on a scratch directory that starts
    empty: the entries of the scratch directory are then exactly the
    staging paths. *)
Lemma scratch_after_loop (input_dir : path) (b c : Z) w1 w' :
  let scratch := input_dir /: scratch_name in
  is_dir (fs w1) input_dir = true ->
  is_dir (fs w1) scratch = true ->
  children (fs w1) scratch = [] ->
  convert_imgs_loop input_dir scratch "__temp" b c w1 = (Ok tt, w') ->
  let staged := targets scratch "__temp" (children (fs w1) input_dir) in
  (forall q, q ∈ children (fs w') scratch <-> q ∈ staged)
  /\ (forall t, t ∈ staged -> is_file (fs w') t = true)
  /\ (forall p, p ∉ staged -> fs w' !! p = fs w1 !! p).
Proof.
  intros scratch Hin Hsc Hempty Hrun staged.
  unfold convert_imgs_loop in Hrun. rewrite bind_run in Hrun.
  unfold iterdir in Hrun. apply is_dir_true in Hin. rewrite Hin in Hrun.
  assert (forall t, t ∈ staged -> exists n, t = scratch /: n) as Hshape.
  { intros t Ht. unfold staged, targets in Ht.
    apply list_elem_of_omap in Ht as (q & _ & Hq). unfold staged_path in Hq.
    destruct (get_img_name (name q)); [|done]. injection Hq as <-. by eexists. }
  apply for_each_convert_img in Hrun as (_ & _ & Hother & Hfiles); [|done|].
  - split; [|done]. intros q. rewrite elem_of_children. split.
    + intros [Hq Hch]. destruct (decide (q ∈ staged)) as [|Hout]; [done|].
      rewrite Hother in Hq by done.
      assert (q ∈ children (fs w1) scratch) as Hq' by by apply elem_of_children.
      rewrite Hempty in Hq'. by apply elem_of_nil in Hq'.
    + intros Ht. destruct (Hshape _ Ht) as [n ->]. split.
      * apply is_file_is_Some; [by apply Hfiles | apply join_ne_nil].
      * apply is_child_join.
  - intros t Ht. destruct (Hshape _ Ht) as [n ->].
    destruct (is_dir (fs w1) (scratch /: n)) eqn:Hd; [|done].
    apply is_dir_true in Hd. rewrite node_at_join in Hd.
    assert (scratch /: n ∈ children (fs w1) scratch) as Hq'.
    { apply elem_of_children. split; [by eexists | apply is_child_join]. }
    rewrite Hempty in Hq'. by apply elem_of_nil in Hq'.
Qed.

End Handover.

(** C4 (as amended).  Let the scratch path not be a directory when
    [convert_imgs] starts, let no entry name of the input directory hold a
    newline, and let the valid images (names ending with [.png] or [.jpg])
    have pairwise different names once the extension is dropped.  When
    [convert_imgs] returns, which is when [main] hands the scratch
    directory to the assembler, the files of the scratch directory and the
    valid images of the input directory correspond one to one: the
    scratch directory holds exactly the files [<name without
    extension>__temp.jpg], one per valid image, all different, and nothing
    else. *)
Theorem scratch_matches_valid_images
    (input_dir : path) (b c : Z) (w w' : world) (out : path) :
  let scratch := input_dir /: scratch_name in
  let valid := valid_images (fs w) input_dir in
  wf_fs (fs w) ->
  is_dir (fs w) input_dir = true ->
  is_dir (fs w) scratch = false ->
  Forall (fun q => no_newline (name q) = true) (children (fs w) input_dir) ->
  NoDup (stem ∘ name <$> valid) ->
  convert_imgs input_dir None "__temp" b c w = (Ok out, w') ->
  out = scratch
  /\ is_dir (fs w') scratch = true
  /\ name <$> children (fs w') scratch ≡ₚ staged_name ∘ name <$> valid
  /\ NoDup (name <$> children (fs w') scratch)
  /\ length (children (fs w') scratch) = length valid
  /\ Forall (fun q => is_file (fs w') q = true) (children (fs w') scratch).
Proof.
  intros scratch valid Hwf Hin Hnd Hnl Hstems Hrun.
  rewrite convert_imgs_run in Hrun. fold scratch in Hrun.
  destruct (convert_imgs_mkdir scratch w) as [[[]|e] w1] eqn:Hmk; [|done].
  assert (fs w1 = <[scratch := Dir]> (fs w)) as Hfs1.
  { apply convert_imgs_mkdir_not_dir in Hmk; [done| |done].
    unfold scratch. by rewrite parent_join. }
  rewrite seq_run in Hrun.
  destruct (convert_imgs_loop _ _ _ _ _ w1) as [[[]|e] w2] eqn:Hloop; [|done].
  injection Hrun as <- <-.
  assert (is_dir (fs w1) scratch = true) as Hsc
    by (by eapply convert_imgs_mkdir_is_dir).
  assert (is_dir (fs w1) input_dir = true) as Hin1.
  { rewrite Hfs1, is_dir_insert_ne; [done|apply join_ne_self]. }
  assert (children (fs w1) scratch = []) as Hempty.
  { rewrite Hfs1. by apply no_children_of_non_dir. }
  pose proof (scratch_after_loop input_dir b c w1 w2 Hin1 Hsc Hempty Hloop)
    as (Hch & Hfiles & Hother).
  fold scratch in Hch, Hfiles, Hother.
  (* the loop ran over the entries of the input directory and the scratch
     directory itself, which is no image *)
  assert (forall q, q ∈ children (fs w1) input_dir <->
                    q = scratch \/ q ∈ children (fs w) input_dir) as Hentries.
  { intros q. rewrite Hfs1. apply children_insert_dir. }
  assert (Forall (fun q => no_newline (name q) = true)
                 (children (fs w1) input_dir)) as Hnl1.
  { apply Forall_forall; intros q [->|Hq]%Hentries;
      [unfold scratch; by rewrite name_join
      | by apply (proj1 (Forall_forall _ _) Hnl)]. }
  rewrite (targets_staged _ _ Hnl1) in Hch, Hfiles, Hother.
  assert (forall t, t ∈ (fun q => scratch /: staged_name (name q))
                          <$> filter (fun q => has_ext (name q) = true)
                                (children (fs w1) input_dir)
                    <-> t ∈ (fun q => scratch /: staged_name (name q)) <$> valid)
    as Hsame.
  { intros t. rewrite !list_elem_of_fmap. unfold valid, valid_images.
    setoid_rewrite list_elem_of_filter. setoid_rewrite Hentries.
    split; intros (q & -> & Hext & Hq); exists q; (split; [done|]).
    - split; [done|]. destruct Hq as [->|]; [|done].
      unfold scratch in Hext. by rewrite name_join in Hext.
    - split; [done|]. by right. }
  assert (NoDup (name <$> children (fs w2) scratch)) as Hnodup.
  { apply NoDup_fmap_2_strong; [|apply NoDup_children].
    intros x y [_ Hx]%elem_of_children [_ Hy]%elem_of_children Heq.
    rewrite (is_child_inv _ _ Hx), (is_child_inv _ _ Hy). by rewrite Heq. }
  assert (name <$> children (fs w2) scratch ≡ₚ staged_name ∘ name <$> valid)
    as Hperm.
  { apply NoDup_Permutation; [done| |].
    - change (staged_name ∘ name <$> valid)
        with ((fun s => s +:+ "__temp" +:+ ".jpg") ∘ (stem ∘ name) <$> valid).
      rewrite list_fmap_compose.
      apply NoDup_fmap_2; [|done]. intros s1 s2. apply string_app_inj_r.
    - intros x. rewrite !list_elem_of_fmap. split.
      + intros (q & -> & Hq). apply Hch, Hsame in Hq.
        apply list_elem_of_fmap in Hq as (q0 & -> & Hq0).
        exists q0. by rewrite name_join.
      + intros (q0 & -> & Hq0). exists (scratch /: staged_name (name q0)).
        rewrite name_join. split; [done|]. apply Hch, Hsame.
        apply list_elem_of_fmap. by exists q0. }
  split; [done|]. split.
  { (* the loop wrote below the scratch directory only *)
    unfold is_dir in *. unfold scratch in *. rewrite node_at_join in *.
    rewrite Hother; [done|]. intros Hst. apply Hch in Hst.
    apply elem_of_children in Hst as [_ Hst]. apply is_child_inv in Hst.
    symmetry in Hst. by apply join_ne_self in Hst. }
  split; [done|]. split; [done|]. split.
  - apply Permutation_length in Hperm. by rewrite !length_fmap in Hperm.
  - apply Forall_forall. intros q Hq. by apply Hfiles, Hch.
Qed.

Lemma scratch_matches_valid_images_witness :
  let scratch := ["d"; scratch_name] in
  let valid := valid_images Sample.fs_abc ["d"] in
  let w' := (convert_imgs ["d"] None "__temp" 50 0 Sample.world_abc).2 in
  scratch = scratch
  /\ is_dir (fs w') scratch = true
  /\ name <$> children (fs w') scratch ≡ₚ staged_name ∘ name <$> valid
  /\ NoDup (name <$> children (fs w') scratch)
  /\ length (children (fs w') scratch) = length valid
  /\ Forall (fun q => is_file (fs w') q = true) (children (fs w') scratch).
Proof.
  intros scratch valid w'.
  apply (scratch_matches_valid_images ["d"] 50 0 Sample.world_abc w' scratch).
  - apply (bool_decide_unpack _). vm_compute. reflexivity.
  - vm_compute. reflexivity.
  - vm_compute. reflexivity.
  - apply (bool_decide_unpack _). vm_compute. reflexivity.
  - apply (bool_decide_unpack _). vm_compute. reflexivity.
  - vm_compute. reflexivity.
Defined.

(** C4 as stated fails in two ways.  With [a.png] and [a.jpg] in the input
    directory both are staged as [a__temp.jpg]: two valid images, one
    file.  With a scratch directory left from before, [mkdir(...,
    exist_ok=True)] keeps what it holds: the old file is handed to the
    assembler with the new ones. *)
Lemma scratch_not_one_to_one :
  (let w' := (convert_imgs ["d"] None "__temp" 0 0 Sample.world_same_stem).2 in
   (convert_imgs ["d"] None "__temp" 0 0 Sample.world_same_stem).1
   = Ok ["d"; scratch_name]
   /\ length (valid_images (fs Sample.world_same_stem) ["d"]) = 2%nat
   /\ name <$> children (fs w') ["d"; scratch_name] = ["a__temp.jpg"])
  /\ (let w' := (convert_imgs ["d"] None "__temp" 0 0 Sample.world_stale).2 in
      (convert_imgs ["d"] None "__temp" 0 0 Sample.world_stale).1
      = Ok ["d"; scratch_name]
      /\ length (valid_images (fs Sample.world_stale) ["d"]) = 2%nat
      /\ length (children (fs w') ["d"; scratch_name]) = 3%nat
      /\ ["d"; scratch_name; "old__temp.jpg"]
           ∈ children (fs w') ["d"; scratch_name]
      /\ Forall (fun q => staged_name (name q) <> "old__temp.jpg")
           (valid_images (fs Sample.world_stale) ["d"])).
Proof.
  split.
  - vm_compute. done.
  - cbv zeta. apply (bool_decide_unpack _). vm_compute. reflexivity.
Qed.

(** ** Cleanup of the scratch directory *)

Section Cleanup.
Variable convert : filesystem -> list path -> result (list Z).
Implicit Types (m : filesystem) (p q d t : path) (w : world).

Lemma fs_imwrite_keeps_dir m t img p :
  is_dir m p = true -> is_dir (fs_imwrite t img m).2 p = true.
Proof.
  intros Hp. unfold fs_imwrite.
  destruct (is_dir m (parent t)); [|done].
  destruct (is_dir m t) eqn:Ht; [done|]. cbn.
  rewrite is_dir_insert_ne; [done|]. intros ->. congruence.
Qed.

(** The loop of [convert_imgs] removes no directory, however it ends. *)
Lemma for_each_convert_img_keeps_dir (input_dir output_dir : path)
    (temp_suffix : string) (b c : Z) (entries : list path) w r w' p :
  for_each entries (convert_img input_dir output_dir temp_suffix b c) w
  = (r, w') ->
  is_dir (fs w) p = true -> is_dir (fs w') p = true.
Proof.
  revert w. induction entries as [|q entries IH]; intros w Hrun Hp.
  - cbn in Hrun. by injection Hrun as _ <-.
  - cbn [for_each] in Hrun. rewrite seq_run, convert_img_run in Hrun.
    destruct (get_img_name (name q)) as [img_name|]; [|by eapply IH].
    destruct (apply_brightness_contrast _ b c) as [tr|e].
    + eapply IH; [done|]. cbn. by apply fs_imwrite_keeps_dir.
    + by injection Hrun as _ <-.
Qed.

Lemma convert_imgs_Ok_is_dir (input_dir : path) (temp_suffix : string)
    (b c : Z) w out w' :
  convert_imgs input_dir None temp_suffix b c w = (Ok out, w') ->
  out = input_dir /: scratch_name /\ is_dir (fs w') out = true.
Proof.
  rewrite convert_imgs_run.
  destruct (convert_imgs_mkdir _ w) as [[[]|e] w1] eqn:Hmk; [|done].
  apply convert_imgs_mkdir_is_dir in Hmk.
  rewrite seq_run. unfold convert_imgs_loop. rewrite bind_run.
  destruct (iterdir input_dir w1) as [[entries|e] w1'] eqn:Hit; [|done].
  assert (w1' = w1) as ->.
  { unfold iterdir in Hit. by destruct (node_at (fs w1) input_dir) as [[]|];
      injection Hit as _ <-. }
  destruct (for_each entries _ w1) as [[[]|e] w2] eqn:Hloop; [|done].
  intros [= <- <-]. split; [done|].
  by eapply for_each_convert_img_keeps_dir.
Qed.

Lemma fs_write_bytes_keeps_dir m t bytes m' p :
  fs_write_bytes t bytes m = Ok m' -> is_dir m p = true -> is_dir m' p = true.
Proof.
  unfold fs_write_bytes. intros Hw Hp.
  assert (t <> p) as Hne.
  { intros ->. apply is_dir_true in Hp. by rewrite Hp in Hw. }
  destruct (node_at m t) as [[c0|]|]; [|done|];
    (destruct (is_dir m (parent t)); [|by destruct (under_file m t)]);
    injection Hw as <-; by rewrite is_dir_insert_ne.
Qed.

(** The assembly step removes no directory, however it ends. *)
Lemma imgs_to_pdf_keeps_dir (imgs_dir output_path : path) w r w' p :
  imgs_to_pdf convert imgs_dir output_path w = (r, w') ->
  is_dir (fs w) p = true -> is_dir (fs w') p = true.
Proof.
  unfold imgs_to_pdf. rewrite bind_run. intros Hrun Hp.
  destruct (iterdir imgs_dir w) as [[entries|e] w1] eqn:Hit.
  - assert (w1 = w) as ->.
    { unfold iterdir in Hit. by destruct (node_at (fs w) imgs_dir) as [[]|];
        injection Hit as _ <-. }
    rewrite bind_run in Hrun. unfold get_fs at 1 in Hrun.
    rewrite bind_run in Hrun. unfold lift at 1 in Hrun.
    destruct (convert (fs w) _) as [pdf|e]; [|by injection Hrun as _ <-].
    unfold write_bytes in Hrun. rewrite fs_op_run in Hrun.
    destruct (fs_write_bytes output_path pdf (fs w)) as [m'|e] eqn:Hw;
      injection Hrun as _ <-; [|done].
    cbn. by eapply fs_write_bytes_keeps_dir.
  - injection Hrun as _ <-.
    unfold iterdir in Hit. by destruct (node_at (fs w) imgs_dir) as [[]|];
      injection Hit as _ <-.
Qed.

Lemma fs_rmtree_dir m p :
  is_dir m p = true ->
  fs_rmtree p m = Ok (filter (fun kv => ~ p `prefix_of` kv.1) m).
Proof. intros Hp%is_dir_true. unfold fs_rmtree. by rewrite Hp. Qed.

Lemma removed_below m p q :
  p `prefix_of` q -> filter (fun kv => ~ p `prefix_of` kv.1) m !! q = None.
Proof.
  intros Hpre. apply map_lookup_filter_None. right. intros x _ Hn. by apply Hn.
Qed.

End Cleanup.

(** C5.  Once [convert_imgs] has returned the scratch directory, the
    assembly step is followed by [delete_temp_imgs] on that directory
    whether [imgs_to_pdf] returns or raises: the outcome of [main] is the
    outcome of the assembly step, the deletion succeeds, and in the final
    file system the scratch directory and everything below it are gone. *)
Theorem cleanup_runs_after_assembly
    (convert : filesystem -> list path -> result (list Z))
    (a : args) (w w0 w1 : world) (converted_dir : path) :
  check_valid_args (arg_imgs_path a) (main_output_path a) w = (Ok tt, w0) ->
  convert_imgs (arg_imgs_path a) None "__temp"
    (arg_brightness a) (arg_contrast a) w0 = (Ok converted_dir, w1) ->
  let assembly :=
    out ← lift (get_output_path (main_output_path a));
    imgs_to_pdf convert converted_dir out in
  let w2 := (assembly w1).2 in
  let w' := (main convert a w).2 in
  (main convert a w).1 = (assembly w1).1
  /\ delete_temp_imgs converted_dir w2 = (Ok tt, w')
  /\ fs w' = filter (fun kv => ~ converted_dir `prefix_of` kv.1) (fs w2)
  /\ path_exists (fs w') converted_dir = false
  /\ (forall q, converted_dir `prefix_of` q -> fs w' !! q = None).
Proof.
  intros Hcheck Hconv assembly w2 w'.
  pose proof (convert_imgs_Ok_is_dir _ _ _ _ _ _ _ Hconv) as [Hdir_eq Hdir].
  assert (is_dir (fs w2) converted_dir = true) as Hdir2.
  { unfold w2, assembly. rewrite bind_run. unfold lift at 1.
    destruct (get_output_path (main_output_path a)) as [out|e]; [|done].
    destruct (imgs_to_pdf convert converted_dir out w1) as [r w3] eqn:Hasm.
    cbn. by eapply imgs_to_pdf_keeps_dir. }
  assert (main convert a w
          = ((assembly w1).1,
             set_fs (filter (fun kv => ~ converted_dir `prefix_of` kv.1) (fs w2)) w2))
    as Hmain.
  { rewrite main_run, Hcheck, Hconv. unfold try_finally. fold assembly.
    unfold w2 in *. destruct (assembly w1) as [r w3]. cbn [fst snd] in *.
    unfold delete_temp_imgs, rmtree. rewrite fs_op_run.
    by rewrite fs_rmtree_dir. }
  unfold w'. rewrite Hmain. cbn [fst snd fs set_fs].
  split; [done|]. split.
  { unfold delete_temp_imgs, rmtree. rewrite fs_op_run.
    by rewrite fs_rmtree_dir. }
  split; [done|].
  assert (converted_dir <> []) as Hne
    by (rewrite Hdir_eq; apply join_ne_nil).
  split.
  - unfold path_exists. destruct converted_dir as [|x cd]; [done|]. cbn.
    rewrite removed_below by done. apply bool_decide_eq_false. by intros [? [=]].
  - intros q Hq. by apply removed_below.
Qed.

Lemma cleanup_runs_after_assembly_witness :
  let a := mk_args ["d"] None 0 0 in
  let converted_dir := ["d"; scratch_name] in
  let w1 := (convert_imgs ["d"] None "__temp" 0 0 Sample.world_abc).2 in
  let assembly :=
    out ← lift (get_output_path (main_output_path a));
    imgs_to_pdf Sample.broken_assembler converted_dir out in
  let w2 := (assembly w1).2 in
  let w' := (main Sample.broken_assembler a Sample.world_abc).2 in
  (main Sample.broken_assembler a Sample.world_abc).1 = (assembly w1).1
  /\ delete_temp_imgs converted_dir w2 = (Ok tt, w')
  /\ fs w' = filter (fun kv => ~ converted_dir `prefix_of` kv.1) (fs w2)
  /\ path_exists (fs w') converted_dir = false
  /\ (forall q, converted_dir `prefix_of` q -> fs w' !! q = None).
Proof.
  intros a converted_dir w1.
  apply (cleanup_runs_after_assembly Sample.broken_assembler a
           Sample.world_abc Sample.world_abc w1 converted_dir).
  - vm_compute. reflexivity.
  - vm_compute. reflexivity.
Defined.

(** Both ends of the assembly step on the sample directory: with a working
    assembler the run succeeds, with a failing one its error is the
    outcome; the scratch directory is gone either way. *)
Lemma cleanup_on_both_paths :
  (let '(r, w') := main Sample.assembler (mk_args ["d"] None 0 0)
                     Sample.world_abc in
   r = Ok tt /\ path_exists (fs w') ["d"; scratch_name] = false
   /\ is_file (fs w') ["d"; "combined_imgs.pdf"] = true)
  /\ (let '(r, w') := main Sample.broken_assembler (mk_args ["d"] None 0 0)
                        Sample.world_abc in
      r = Raise (AssemblerError "no images")
      /\ path_exists (fs w') ["d"; scratch_name] = false
      /\ path_exists (fs w') ["d"; "combined_imgs.pdf"] = false).
Proof. vm_compute. done. Qed.

(** ** The run as a whole *)

(** [main] does nothing after a [convert_imgs] that raises: the call sits
    before the [try], so no [finally] clause covers it. *)
Lemma main_after_failed_conversion
    (convert : filesystem -> list path -> result (list Z))
    (a : args) (w w0 w1 : world) (e : exn) :
  check_valid_args (arg_imgs_path a) (main_output_path a) w = (Ok tt, w0) ->
  convert_imgs (arg_imgs_path a) None "__temp"
    (arg_brightness a) (arg_contrast a) w0 = (Raise e, w1) ->
  main convert a w = (Raise e, w1).
Proof. intros Hcheck Hconv. by rewrite main_run, Hcheck, Hconv. Qed.

(** C2, the code at the failing inputs.  A run with [-c 131] over the
    sample directory, and a run over a directory whose only image does not
    decode: the scratch directory is not there before the run, the run
    makes it, the conversion raises, and the scratch directory is still
    there when the program ends. *)
Lemma main_leaves_scratch_when_conversion_fails :
  (let scratch := ["d"; scratch_name] in
   path_exists (fs Sample.world_abc) scratch = false
   /\ (main Sample.assembler (mk_args ["d"] None 0 131) Sample.world_abc).1
      = Raise ZeroDivisionError
   /\ is_dir (fs (main Sample.assembler (mk_args ["d"] None 0 131)
                    Sample.world_abc).2) scratch = true)
  /\ (let scratch := ["d"; scratch_name] in
      path_exists (fs Sample.world_unreadable) scratch = false
      /\ (main Sample.assembler (mk_args ["d"] None 0 0)
            Sample.world_unreadable).1 = Raise AttributeError
      /\ is_dir (fs (main Sample.assembler (mk_args ["d"] None 0 0)
                       Sample.world_unreadable).2) scratch = true).
Proof. vm_compute. done. Qed.

(** Without an entry at the path as supplied, [check_valid_args] asks
    nothing. *)
Lemma check_valid_args_silent (imgs_path output_path : path) (w : world) :
  path_exists (fs w) output_path = false ->
  check_valid_args imgs_path output_path w
  = (if is_dir (fs w) imgs_path then Ok tt
     else Raise (invalid_input imgs_path), w).
Proof. intros Hout. by rewrite check_valid_args_run, Hout. Qed.

(** C7, the code at the failing input.  With [-o q.txt] the file written
    is [q.pdf]; [q.pdf] exists before the run and [q.txt] does not.  The
    run succeeds with nothing on the console, no prompt in particular, and
    [q.pdf] holds the new document. *)
Lemma main_overwrites_pdf_unasked :
  let a := mk_args ["d"] (Some ["q.txt"]) 0 0 in
  get_output_path (main_output_path a) = Ok ["q.pdf"]
  /\ fs Sample.world_old_pdf !! ["q.pdf"] = Some (File (Blob [1; 2; 3]))
  /\ path_exists (fs Sample.world_old_pdf) ["q.txt"] = false
  /\ (main Sample.assembler a Sample.world_old_pdf).1 = Ok tt
  /\ console (main Sample.assembler a Sample.world_old_pdf).2 = []
  /\ fs (main Sample.assembler a Sample.world_old_pdf).2 !! ["q.pdf"]
     = Some (File (Blob [37; 37])).
Proof. vm_compute. done. Qed.

(** The example of the specification: from [a.png], [b.jpg] and [c.txt]
    the scratch directory receives [a__temp.jpg] and [b__temp.jpg] and
    nothing else. *)
Lemma convert_imgs_abc :
  let w' := (convert_imgs ["d"] None "__temp" 0 0 Sample.world_abc).2 in
  (convert_imgs ["d"] None "__temp" 0 0 Sample.world_abc).1
  = Ok ["d"; scratch_name]
  /\ name <$> children (fs w') ["d"; scratch_name]
     ≡ₚ ["a__temp.jpg"; "b__temp.jpg"]
  /\ Forall (fun q => exists img, fs w' !! q = Some (File (Image img)))
       (children (fs w') ["d"; scratch_name]).
Proof.
  cbv zeta. split; [vm_compute; reflexivity|]. split.
  - apply (bool_decide_unpack _). vm_compute. reflexivity.
  - vm_compute. repeat constructor; by eexists.
Qed.

(** On names without a newline [convert_imgs] stages exactly the entries
    whose name ends with [.png] or [.jpg], each as the name without the
    extension followed by [temp_suffix] and [.jpg]; the loop passes over
    every other entry. *)
Lemma convert_img_by_name (input_dir output_dir : path) (b c : Z)
    (q : path) (w : world) :
  no_newline (name q) = true ->
  (has_ext (name q) = false ->
   convert_img input_dir output_dir "__temp" b c q w = (Ok tt, w))
  /\ (has_ext (name q) = true ->
      staged_path output_dir "__temp" q
      = Some (output_dir /: staged_name (name q))).
Proof.
  intros Hnl. split; intros Hext.
  - rewrite convert_img_run, get_img_name_stem by done. by rewrite Hext.
  - unfold staged_path. rewrite get_img_name_stem by done. by rewrite Hext.
Qed.

(** C6, the code at the failing input.  The name [a.png] followed by a
    newline does not end with [.png] or [.jpg], yet [$] matches before the
    final newline: [get_img_name] returns ["a"] instead of [None], and
    [convert_imgs] stages the entry as [a__temp.jpg].  A name with a
    newline inside is cut at that newline. *)
Lemma get_img_name_matches_before_newline :
  has_ext Sample.png_newline = false
  /\ get_img_name Sample.png_newline = Some "a"
  /\ get_img_name ("x" +:+ String re.newline "y.png") = Some "y"
  /\ (convert_imgs ["d"] None "__temp" 0 0 Sample.world_newline).1
     = Ok ["d"; scratch_name]
  /\ name <$> children (fs (convert_imgs ["d"] None "__temp" 0 0
                             Sample.world_newline).2) ["d"; scratch_name]
     = ["a__temp.jpg"].
Proof. vm_compute. done. Qed.

(** * Further properties *)

(** ** Tone Adjuster: every integer parameter, the missing image *)

Section ToneMore.









End ToneMore.
(** ** Tone Adjuster: order and direction of the two steps *)

Section ToneTables.

Lemma row_ok_spec (cmp ord : Z -> Z -> bool) (f : Z -> Z) (n : nat) (lo : Z) :
  row_ok cmp ord lo (map f (seqZ lo (Z.of_nat n))) = true ->
  forall v, lo <= v < lo + Z.of_nat n ->
    cmp v (f v) = true
    /\ (v + 1 < lo + Z.of_nat n -> ord (f v) (f (v + 1)) = true).
Proof.
  revert lo. induction n as [|n IH]; intros lo Hrow v Hv; [lia|].
  rewrite Nat2Z.inj_succ, seqZ_cons in Hrow by lia.
  replace (Z.pred (Z.succ (Z.of_nat n))) with (Z.of_nat n) in Hrow by lia.
  cbn [map row_ok] in Hrow.
  apply andb_true_iff in Hrow as [[Hcmp Hord]%andb_true_iff Hrest].
  replace (Z.succ lo) with (lo + 1) in * by lia.
  destruct (decide (v = lo)) as [->|Hne].
  - split; [done|]. intros Hlt. destruct n as [|n]; [lia|].
    rewrite Nat2Z.inj_succ, seqZ_cons in Hord by lia. by cbn in Hord.
  - destruct (IH (lo + 1) Hrest v) as [H1 H2]; [lia|]. split; [done|].
    intros Hlt. apply H2. lia.
Qed.

Lemma steps_monotone (R : Z -> Z -> Prop) `{!Reflexive R} `{!Transitive R}
    (f : Z -> Z) (lo hi : Z) :
  (forall v, lo <= v -> v + 1 <= hi -> R (f v) (f (v + 1))) ->
  forall x y, lo <= x -> x <= y -> y <= hi -> R (f x) (f y).
Proof.
  intros Hstep x y Hlo Hxy Hhi.
  replace y with (x + Z.of_nat (Z.to_nat (y - x))) in * by lia.
  induction (Z.to_nat (y - x)) as [|k IH]; [by rewrite Z.add_0_r|].
  rewrite Nat2Z.inj_succ in *.
  replace (x + Z.succ (Z.of_nat k)) with (x + Z.of_nat k + 1) in * by lia.
  etrans; [apply IH; lia|]. apply Hstep; lia.
Qed.

Lemma brightness_rows_all : forallb brightness_row_ok (seqZ (-255) 511) = true.
Proof. vm_cast_no_check (eq_refl true). Qed.

Lemma contrast_rows_all : forallb contrast_row_ok (seqZ (-255) 511) = true.
Proof. vm_cast_no_check (eq_refl true). Qed.

Lemma brightness_row (b : Z) :
  -255 <= b <= 255 ->
  forall v, 0 <= v <= 255 ->
    (0 < b -> v <= brightness_sample b v)
    /\ (b < 0 -> brightness_sample b v <= v)
    /\ (v + 1 <= 255 -> brightness_sample b v <= brightness_sample b (v + 1)).
Proof.
  intros Hb v Hv.
  pose proof (in_range_seqZ brightness_row_ok (-255) 511 brightness_rows_all b
                ltac:(lia)) as Hrow.
  unfold brightness_row_ok, sample_floats in Hrow. cbv zeta in Hrow.
  rewrite map_map in Hrow.
  destruct (row_ok_spec _ _ (brightness_sample b) 256 0 Hrow v) as [Hcmp Hord];
    [lia|].
  clear Hrow. split; [|split].
  - intros Hpos. apply Z.ltb_lt in Hpos. rewrite Hpos in Hcmp. lia.
  - intros Hneg. destruct (0 <? b) eqn:E; [lia|].
    apply Z.ltb_lt in Hneg. rewrite Hneg in Hcmp. lia.
  - intros Hlt. apply Z.leb_le, Hord. lia.
Qed.

Lemma contrast_row (c : Z) :
  -255 <= c <= 255 -> c <> 131 ->
  forall v, 0 <= v <= 255 ->
    (v = 127 -> contrast_sample c v = 127)
    /\ (v + 1 <= 255 ->
        contrast_order c (contrast_sample c v) (contrast_sample c (v + 1)) = true).
Proof.
  intros Hc Hne v Hv.
  pose proof (in_range_seqZ contrast_row_ok (-255) 511 contrast_rows_all c
                ltac:(lia)) as Hrow.
  unfold contrast_row_ok in Hrow.
  apply orb_true_iff in Hrow as [Hrow|Hrow];
    [by apply bool_decide_eq_true in Hrow|].
  unfold sample_floats in Hrow. cbv zeta in Hrow. rewrite map_map in Hrow.
  destruct (row_ok_spec _ _ (contrast_sample c) 256 0 Hrow v) as [Hcmp Hord];
    [lia|].
  clear Hrow. split.
  - intros ->. cbn in Hcmp. lia.
  - intros Hlt. apply Hord. lia.
Qed.

Lemma adjust_brightness_data (buf : ndarray) (b : Z) :
  b <> 0 ->
  data (ToneSpec.adjust_brightness buf b) = map (brightness_sample b) (data buf).
Proof.
  intros Hb%Z.eqb_neq. unfold ToneSpec.adjust_brightness. by rewrite Hb.
Qed.

Lemma adjust_contrast_data (buf : ndarray) (c : Z) :
  c <> 0 ->
  data (ToneSpec.adjust_contrast buf c) = map (contrast_sample c) (data buf).
Proof.
  intros Hc%Z.eqb_neq. unfold ToneSpec.adjust_contrast. by rewrite Hc.
Qed.

End ToneTables.

Lemma brightness_extremes_all :
  forallb (fun v => (brightness_sample 255 v =? 255)
                    && (brightness_sample (-255) v =? 0)) (seqZ 0 256) = true.
Proof. vm_cast_no_check (eq_refl true). Qed.

Lemma adjust_contrast_0 (buf : ndarray) : ToneSpec.adjust_contrast buf 0 = buf.
Proof. reflexivity. Qed.

Lemma adjust_brightness_0 (buf : ndarray) : ToneSpec.adjust_brightness buf 0 = buf.
Proof. reflexivity. Qed.

(** X3.  Brightness alone, for [brightness] in [-255, 255] on a uint8
    buffer: no sample is lowered by a positive brightness or raised by a
    negative one, the order between any two samples is kept, and the two
    ends give a constant image: 255 everywhere for brightness 255, 0
    everywhere for brightness -255. *)
Theorem brightness_keeps_order (img buf : ndarray) (brightness : Z) :
  uint8_array img ->
  -255 <= brightness <= 255 ->
  apply_brightness_contrast (Some img) brightness 0 = Ok buf ->
  length (data buf) = length (data img)
  /\ forall (i j : nat) (x y x' y' : Z),
       data img !! i = Some x -> data img !! j = Some y ->
       data buf !! i = Some x' -> data buf !! j = Some y' ->
       (0 < brightness -> x <= x')
       /\ (brightness < 0 -> x' <= x)
       /\ (x <= y -> x' <= y')
       /\ (brightness = 255 -> x' = 255)
       /\ (brightness = -255 -> x' = 0).
Proof.
  intros Himg Hb Hrun.
  rewrite tone_adjuster_refines in Hrun by (done || lia).
  injection Hrun as <-. unfold ToneSpec.adjust. rewrite adjust_contrast_0.
  destruct (decide (brightness = 0)) as [->|Hne].
  - rewrite adjust_brightness_0. split; [done|].
    intros i j x y x' y' Hx Hy Hx' Hy'. simplify_eq. lia.
  - rewrite adjust_brightness_data by done. split; [by rewrite length_map|].
    intros i j x y x' y' Hx Hy Hx' Hy'.
    rewrite list_lookup_fmap, Hx in Hx'. rewrite list_lookup_fmap, Hy in Hy'.
    cbn in Hx', Hy'. injection Hx' as <-. injection Hy' as <-.
    destruct Himg as [_ Hdata]. rewrite Forall_lookup in Hdata.
    pose proof (Hdata _ _ Hx) as Hxr. pose proof (Hdata _ _ Hy) as Hyr.
    destruct (brightness_row brightness Hb x Hxr) as (Hup & Hdown & _).
    split; [done|]. split; [done|]. split; [|split].
    + intros Hxy.
      apply (steps_monotone Z.le (brightness_sample brightness) 0 255);
        [|lia..].
      intros v Hv1 Hv2.
      destruct (brightness_row brightness Hb v ltac:(lia)) as (_ & _ & H).
      apply H. lia.
    + intros ->.
      pose proof (in_range_seqZ _ 0 256 brightness_extremes_all x ltac:(lia)) as H.
      cbv beta in H. apply andb_true_iff in H as [H _]. lia.
    + intros ->.
      pose proof (in_range_seqZ _ 0 256 brightness_extremes_all x ltac:(lia)) as H.
      cbv beta in H. apply andb_true_iff in H as [_ H]. lia.
Qed.

(** X4.  Contrast alone, for [contrast] in [-255, 255] other than 131 on a
    uint8 buffer: a sample of 127 stays 127; for [-127 <= contrast <= 130]
    the order between any two samples is kept, and outside that range
    ([f] is negative there) it is reversed. *)
Theorem contrast_pivots_on_127 (img buf : ndarray) (contrast : Z) :
  uint8_array img ->
  -255 <= contrast <= 255 ->
  contrast <> 131 ->
  apply_brightness_contrast (Some img) 0 contrast = Ok buf ->
  length (data buf) = length (data img)
  /\ forall (i j : nat) (x y x' y' : Z),
       data img !! i = Some x -> data img !! j = Some y ->
       data buf !! i = Some x' -> data buf !! j = Some y' ->
       (x = 127 -> x' = 127)
       /\ (-127 <= contrast <= 130 -> x <= y -> x' <= y')
       /\ (contrast < -127 \/ 131 < contrast -> x <= y -> y' <= x').
Proof.
  intros Himg Hc Hne Hrun.
  rewrite tone_adjuster_refines in Hrun by (done || lia).
  injection Hrun as <-. unfold ToneSpec.adjust. rewrite adjust_brightness_0.
  destruct (decide (contrast = 0)) as [->|Hne0].
  - rewrite adjust_contrast_0. split; [done|].
    intros i j x y x' y' Hx Hy Hx' Hy'. simplify_eq. lia.
  - rewrite adjust_contrast_data by done. split; [by rewrite length_map|].
    intros i j x y x' y' Hx Hy Hx' Hy'.
    rewrite list_lookup_fmap, Hx in Hx'. rewrite list_lookup_fmap, Hy in Hy'.
    cbn in Hx', Hy'. injection Hx' as <-. injection Hy' as <-.
    destruct Himg as [_ Hdata]. rewrite Forall_lookup in Hdata.
    pose proof (Hdata _ _ Hx) as Hxr. pose proof (Hdata _ _ Hy) as Hyr.
    split; [|split].
    + intros H127. by apply (contrast_row contrast Hc Hne x Hxr).
    + intros Hmid Hxy.
      apply (steps_monotone Z.le (contrast_sample contrast) 0 255); [|lia..].
      intros v Hv1 Hv2.
      destruct (contrast_row contrast Hc Hne v ltac:(lia)) as (_ & H).
      specialize (H Hv2). unfold contrast_order in H.
      assert ((-127 <=? contrast) && (contrast <=? 130) = true) as E.
      { apply andb_true_iff. split; apply Z.leb_le; lia. }
      rewrite E in H. lia.
    + intros Hout Hxy.
      apply (steps_monotone (flip Z.le) (contrast_sample contrast) 0 255);
        [|lia..].
      intros v Hv1 Hv2.
      destruct (contrast_row contrast Hc Hne v ltac:(lia)) as (_ & H).
      specialize (H Hv2). unfold contrast_order in H.
      assert ((-127 <=? contrast) && (contrast <=? 130) = false) as E.
      { apply andb_false_iff. destruct Hout; [left|right]; apply Z.leb_gt; lia. }
      rewrite E in H. unfold flip. lia.
Qed.

Lemma brightness_keeps_order_witness :
  let buf := {| shape := [1; 3]%nat; data := [130; 50; 255] |} in
  length (data buf) = length (data Sample.img)
  /\ forall (i j : nat) (x y x' y' : Z),
       data Sample.img !! i = Some x -> data Sample.img !! j = Some y ->
       data buf !! i = Some x' -> data buf !! j = Some y' ->
       (0 < 50 -> x <= x')
       /\ (50 < 0 -> x' <= x)
       /\ (x <= y -> x' <= y')
       /\ (50 = 255 -> x' = 255)
       /\ (50 = -255 -> x' = 0).
Proof.
  intros buf. apply (brightness_keeps_order Sample.img buf 50).
  - split; [reflexivity | repeat constructor; lia].
  - lia.
  - vm_compute. reflexivity.
Defined.

Lemma contrast_pivots_on_127_witness :
  let img := {| shape := [1; 3]%nat; data := [100; 127; 128] |} in
  let buf := {| shape := [1; 3]%nat; data := [133; 127; 127] |} in
  length (data buf) = length (data img)
  /\ forall (i j : nat) (x y x' y' : Z),
       data img !! i = Some x -> data img !! j = Some y ->
       data buf !! i = Some x' -> data buf !! j = Some y' ->
       (x = 127 -> x' = 127)
       /\ (-127 <= -200 <= 130 -> x <= y -> x' <= y')
       /\ (-200 < -127 \/ 131 < -200 -> x <= y -> y' <= x').
Proof.
  intros img buf. apply (contrast_pivots_on_127 img buf (-200)).
  - split; [reflexivity | repeat constructor; lia].
  - lia.
  - lia.
  - vm_compute. reflexivity.
Defined.
(** ** [get_output_path] *)

Section OutputPath.

Lemma substring_0_app (s t : string) :
  String.substring 0 (String.length s) (s +:+ t) = s.
Proof.
  induction s as [|c s IH]; [by destruct t|].
  change (String c s +:+ t) with (String c (s +:+ t)). cbn. by rewrite IH.
Qed.

Lemma substring_skip_app (s t : string) :
  String.substring (String.length s) (String.length t) (s +:+ t) = t.
Proof.
  induction s as [|c s IH].
  - change (EmptyString +:+ t) with t. cbn [String.length].
    induction t as [|c t IH]; [done|]. cbn. by rewrite IH.
  - change (String c s +:+ t) with (String c (s +:+ t)). cbn. by rewrite IH.
Qed.

Lemma rfind_dot_lt (s : string) (i : nat) :
  rfind_dot s = Some i -> (i < String.length s)%nat.
Proof.
  revert i. induction s as [|c s IH]; intros i; [done|]. cbn.
  destruct (rfind_dot s) as [j|].
  - intros [= <-]. specialize (IH j eq_refl). lia.
  - case_bool_decide; [|done]. intros [= <-]. lia.
Qed.

Lemma split_at (s : string) (i : nat) :
  (i <= String.length s)%nat ->
  s = String.substring 0 i s
      +:+ String.substring i (String.length s - i) s.
Proof.
  revert i. induction s as [|c s IH]; intros i Hi.
  - cbn in Hi. by replace i with 0%nat by lia.
  - destruct i as [|i].
    + cbn [String.substring String.length]. rewrite Nat.sub_0_r.
      change (EmptyString +:+ ?x) with x.
      f_equal. rewrite <- (substring_0_app s EmptyString) at 1.
      clear. induction s as [|c s IH]; [done|].
      change (String c s +:+ "") with (String c (s +:+ "")). cbn. by rewrite IH.
    + cbn [String.substring String.length]. cbn in Hi.
      replace (S (String.length s) - S i)%nat with (String.length s - i)%nat by lia.
      change (String c ?a +:+ ?b) with (String c (a +:+ b)).
      f_equal. apply IH. lia.
Qed.

Lemma substring_length_le (s : string) (j k : nat) :
  (String.length (String.substring j k s) <= k)%nat.
Proof.
  revert j k. induction s as [|c s IH]; intros j k.
  - destruct j, k; cbn; lia.
  - destruct j as [|j]; [|cbn; apply IH].
    destruct k as [|k]; [cbn; lia|]. cbn. specialize (IH 0%nat k). lia.
Qed.

Lemma rfind_dot_app_pdf (s : string) :
  rfind_dot (s +:+ ".pdf") = Some (String.length s).
Proof.
  induction s as [|c s IH]; [reflexivity|].
  change (String c s +:+ ".pdf") with (String c (s +:+ ".pdf")).
  cbn [rfind_dot String.length]. by rewrite IH.
Qed.

(** A name that ends in [.pdf] after a non-empty stem is left alone. *)
Lemma with_suffix_pdf (d : path) (s : string) :
  s <> EmptyString ->
  get_output_path (d /: (s +:+ ".pdf")) = Ok (d /: (s +:+ ".pdf")).
Proof.
  intros Hs. unfold get_output_path, with_suffix, suffix.
  rewrite name_join, parent_join, rfind_dot_app_pdf, string_length_app.
  assert (String.length s <> 0)%nat as Hlen by by destruct s.
  rewrite bool_decide_eq_false_2 by by destruct s.
  change (String.length ".pdf") with 4%nat.
  rewrite (bool_decide_eq_true_2 (0 < _)%nat) by lia.
  rewrite (bool_decide_eq_true_2 (_ < _ - 1)%nat) by lia. cbn [andb].
  change 4%nat with (String.length ".pdf").
  replace (String.length s + String.length ".pdf" - String.length s)%nat
    with (String.length ".pdf") by lia.
  rewrite substring_skip_app.
  rewrite bool_decide_eq_false_2 by done.
  replace (String.length s + String.length ".pdf" - String.length ".pdf")%nat
    with (String.length s) by lia.
  by rewrite substring_0_app.
Qed.

Lemma path_split (p : path) : p <> [] -> p = parent p /: name p.
Proof.
  intros Hne. destruct p as [|x p'] using rev_ind; [done|].
  change (p' ++ [x]) with (p' /: x). by rewrite parent_join, name_join.
Qed.

Lemma name_nonempty_path (p : path) : name p <> EmptyString -> p <> [].
Proof. by intros Hn ->. Qed.

Lemma get_output_path_Ok (p : path) :
  name p <> EmptyString ->
  exists s, s <> EmptyString
            /\ get_output_path p = Ok (parent p /: (s +:+ ".pdf"))
            /\ (suffix p = EmptyString -> s = name p)
            /\ name p = s +:+ suffix p.
Proof.
  intros Hn. unfold get_output_path, with_suffix.
  rewrite bool_decide_eq_false_2 by done.
  case_bool_decide as Hsuf.
  - exists (name p). rewrite Hsuf. split; [done|]. split; [done|].
    split; [done|]. clear. induction (name p) as [|c s IH]; [done|].
    change (String c s +:+ "") with (String c (s +:+ "")). by rewrite <- IH.
  - unfold suffix in *. destruct (rfind_dot (name p)) as [i|] eqn:Hi; [|done].
    pose proof (rfind_dot_lt _ _ Hi) as Hlt.
    destruct (bool_decide (0 < i)%nat) eqn:H0; [|done].
    apply bool_decide_eq_true in H0. cbn [andb] in *.
    destruct (bool_decide (i < String.length (name p) - 1)%nat); [|done].
    pose proof (split_at (name p) i ltac:(lia)) as Hsplit.
    set (a := String.substring 0 i (name p)) in *.
    set (b := String.substring i (String.length (name p) - i) (name p)) in *.
    assert (String.length a = i) as Ha.
    { apply (f_equal String.length) in Hsplit.
      rewrite string_length_app in Hsplit.
      pose proof (substring_length_le (name p) i (String.length (name p) - i))
        as Hbl.
      pose proof (substring_length_le (name p) 0 i) as Hal.
      fold b in Hbl. fold a in Hal. lia. }
    assert (String.length b = (String.length (name p) - i)%nat) as Hb.
    { apply (f_equal String.length) in Hsplit.
      rewrite string_length_app in Hsplit. lia. }
    exists a. split; [intros Ha0; rewrite Ha0 in Ha; cbn in Ha; lia|].
    split; [|split; [done|done]].
    do 3 f_equal. rewrite Hb. unfold a. f_equal. lia.
Qed.

End OutputPath.

(** X5.  [get_output_path] fails only for a path without a name (with
    [ValueError]).  Otherwise it returns a path in the same directory
    whose name is the old name with its suffix, if it had one, replaced by
    [.pdf]; the stem before [.pdf] is never empty, and applying
    [get_output_path] to the result changes nothing. *)
Theorem get_output_path_idempotent (p : path) :
  (name p = EmptyString ->
   exists msg, get_output_path p = Raise (ValueError msg))
  /\ (name p <> EmptyString ->
      exists q s,
        get_output_path p = Ok q
        /\ parent q = parent p
        /\ s <> EmptyString
        /\ name p = s +:+ suffix p
        /\ name q = s +:+ ".pdf"
        /\ get_output_path q = Ok q).
Proof.
  split.
  - intros Hn. unfold get_output_path, with_suffix. rewrite Hn.
    rewrite bool_decide_eq_true_2 by done. by eexists.
  - intros Hn. destruct (get_output_path_Ok p Hn) as (s & Hs & Hok & _ & Hname).
    exists (parent p /: (s +:+ ".pdf")), s.
    rewrite parent_join, name_join. repeat split; try done.
    by apply with_suffix_pdf.
Qed.

Lemma get_output_path_idempotent_witness :
  let p := ["out"; "scan.v2.txt"] in
  exists q s,
    get_output_path p = Ok q
    /\ parent q = parent p
    /\ s <> EmptyString
    /\ name p = s +:+ suffix p
    /\ name q = s +:+ ".pdf"
    /\ get_output_path q = Ok q.
Proof.
  intros p. apply (proj2 (get_output_path_idempotent p)).
  apply (bool_decide_unpack _). vm_compute. reflexivity.
Defined.

(** ** [get_img_name] on every name *)

Section GetImgNameMore.
Import re.

(** X6.  On a name without a newline character, [get_img_name] returns
    [b] exactly when the name is [b] followed by [.png] or [.jpg], in
    lower case: the base name is recovered, and any other name gives
    [None]. *)
Theorem get_img_name_by_extension (n b : string) :
  no_newline n = true ->
  (get_img_name n = Some b <-> n = b +:+ ".png" \/ n = b +:+ ".jpg")
  /\ (get_img_name n = None <->
      ~ exists b', n = b' +:+ ".png" \/ n = b' +:+ ".jpg").
Proof.
  intros Hnl. split; [by apply get_img_name_Some | by apply get_img_name_None].
Qed.

Lemma get_img_name_by_extension_witness :
  (get_img_name "scan.v2.jpg" = Some "scan.v2"
   <-> "scan.v2.jpg" = "scan.v2" +:+ ".png"
       \/ "scan.v2.jpg" = "scan.v2" +:+ ".jpg")
  /\ (get_img_name "scan.v2.jpg" = None <->
      ~ exists b', "scan.v2.jpg" = b' +:+ ".png"
                   \/ "scan.v2.jpg" = b' +:+ ".jpg").
Proof.
  apply (get_img_name_by_extension "scan.v2.jpg" "scan.v2").
  vm_compute. reflexivity.
Defined.

(** What [star] hands to the rest of the pattern is the input without a
    prefix of characters the item accepts. *)
Lemma star_Some {R} (i : item) (s : string) (k : string -> option R) (r : R) :
  star i s k = Some r ->
  exists a t, s = a +:+ t /\ k t = Some r
              /\ (i = Dot -> no_newline a = true).
Proof.
  induction s as [|c s IH]; cbn [star].
  - intros Hk. by exists EmptyString, EmptyString.
  - destruct (item_ok i c) eqn:Hc.
    + destruct (star i s k) as [r'|] eqn:Hs.
      * intros [= ->]. destruct (IH eq_refl) as (a & t & -> & Hk & Hnl).
        exists (String c a), t. repeat split; [done|].
        intros ->. cbn [no_newline]. cbn in Hc. rewrite Hc. by apply Hnl.
      * intros Hk. by exists EmptyString, (String c s).
    + intros Hk. by exists EmptyString, (String c s).
Qed.

(** The end of the pattern matches an extension and then the end of the
    string, or one newline that ends it. *)
Lemma tail_match_Some (s : string) (caps r : captures) :
  mtch tail_re s caps k0 = Some r ->
  exists e tl, s = e +:+ tl /\ is_ext e = true
               /\ (tl = EmptyString \/ tl = String newline EmptyString)
               /\ group 1 r = group 1 caps.
Proof.
  unfold tail_re.
  destruct s as [|c1 [|c2 [|c3 [|c4 [|c5 [|c6 rest]]]]]].
  1-4: cbn; repeat (case_bool_decide; try done); done.
  - cbn. repeat (case_bool_decide; simplify_eq; try done);
      intros Hr; unfold k0 in Hr; cbn in Hr; injection Hr as <-.
    + exists ".png", EmptyString.
      split; [reflexivity|split; [reflexivity|split; [by left|done]]].
    + exists ".jpg", EmptyString.
      split; [reflexivity|split; [reflexivity|split; [by left|done]]].
  - cbn. repeat (case_bool_decide; simplify_eq; try done);
      intros Hr; unfold k0 in Hr; cbn in Hr; injection Hr as <-.
    + exists ".png", (String newline EmptyString).
      split; [reflexivity|split; [reflexivity|split; [by right|done]]].
    + exists ".jpg", (String newline EmptyString).
      split; [reflexivity|split; [reflexivity|split; [by right|done]]].
  - cbn. repeat (case_bool_decide; simplify_eq; try done).
Qed.

Lemma search_Some (r : regex) (s : string) (caps : captures) :
  search r s = Some caps ->
  exists pre s', s = pre +:+ s' /\ mtch r s' [] k0 = Some caps.
Proof.
  induction s as [|c s IH]; cbn [search]; fold k0.
  - destruct (mtch r EmptyString [] k0) as [caps'|] eqn:Hm; [|done].
    intros [= <-]. by exists EmptyString, EmptyString.
  - destruct (mtch r (String c s) [] k0) as [caps'|] eqn:Hm.
    + intros [= <-]. by exists EmptyString, (String c s).
    + intros (pre & s' & -> & Hs)%IH. by exists (String c pre), s'.
Qed.

(** X7.  On every name, newlines included: what [get_img_name] returns
    holds no newline and is followed in the name by [.png] or [.jpg] and
    then by the end of the name or by one last newline.  A name that does
    not end in one of these four ways gives [None]. *)
Theorem get_img_name_sound (n b : string) :
  get_img_name n = Some b ->
  exists pre e tl,
    n = pre +:+ b +:+ e +:+ tl
    /\ no_newline b = true
    /\ is_ext e = true
    /\ (tl = EmptyString \/ tl = String newline EmptyString).
Proof.
  unfold get_img_name.
  destruct (search img_pattern n) as [caps|] eqn:Hs; [|done].
  intros Hg. apply search_Some in Hs as (pre & s' & -> & Hm).
  unfold img_pattern in Hm.
  change (mtch _ s' [] k0)
    with (star Dot s' (fun t => mtch tail_re t [(1%nat, consumed s' t)] k0))
    in Hm.
  apply star_Some in Hm as (a & t & -> & Hm & Hnl).
  apply tail_match_Some in Hm as (e & tl & -> & He & Htl & Hg1).
  rewrite Hg1 in Hg. cbn [group Nat.eqb] in Hg. rewrite consumed_app in Hg.
  injection Hg as <-. exists pre, e, tl. split; [done|]. auto.
Qed.

Lemma get_img_name_sound_witness :
  exists pre e tl,
    ("x" +:+ String newline "y.png") = pre +:+ "y" +:+ e +:+ tl
    /\ no_newline "y" = true
    /\ is_ext e = true
    /\ (tl = EmptyString \/ tl = String newline EmptyString).
Proof.
  apply (get_img_name_sound ("x" +:+ String newline "y.png") "y").
  vm_compute. reflexivity.
Defined.

End GetImgNameMore.

(** ** [check_valid_args] on every input *)

Section CheckMore.

Lemma confirm_loop_eof (msg : string) (lines : list string) :
  Forall (fun l => keeps_asking l = true) lines ->
  confirm_loop msg "_" lines
  = (Raise EOFError, [], replicate (S (length lines)) (EvPrompt msg)).
Proof.
  induction 1 as [|line lines Hl _ IH]; [reflexivity|].
  rewrite confirm_loop_again by done. by rewrite IH.
Qed.

Lemma confirm_result (msg : string) (w : world) :
  (confirm msg w).1 = Ok tt \/ (confirm msg w).1 = Raise (SystemExit 0)
  \/ (confirm msg w).1 = Raise EOFError.
Proof.
  unfold confirm. pose proof (confirm_loop_outcome msg (stdin w)) as H.
  destruct (confirm_loop msg "_" (stdin w)) as [[r rest] evs].
  inversion H; subst; cbn; auto.
Qed.

(** X8.  [check_valid_args] reads and asks but never changes the file
    system.  It returns normally only if [imgs_path] is a directory.  Its
    only outcomes are a normal return, the error "Invalid input images
    path", [SystemExit(0)] and [EOFError]: the second test of the source,
    for a path that does not exist, can never fire, as such a path has
    already failed [is_dir]. *)
Theorem check_valid_args_outcomes (imgs_path output_path : path) (w : world) :
  let r := (check_valid_args imgs_path output_path w).1 in
  let w' := (check_valid_args imgs_path output_path w).2 in
  fs w' = fs w
  /\ (r = Ok tt -> is_dir (fs w) imgs_path = true)
  /\ (r = Ok tt \/ r = Raise (invalid_input imgs_path)
      \/ r = Raise (SystemExit 0) \/ r = Raise EOFError)
  /\ r <> Raise (ValueError ("Input path in argument does not exist: "
                             +:+ path_str imgs_path)).
Proof.
  cbv zeta. rewrite check_valid_args_run.
  assert (invalid_input imgs_path
          <> ValueError ("Input path in argument does not exist: "
                         +:+ path_str imgs_path)) as Hmsg.
  { unfold invalid_input. intros [= H]. }
  destruct (path_exists (fs w) output_path).
  - pose proof (confirm_result (overwrite_msg output_path) w) as Hr.
    destruct (confirm (overwrite_msg output_path) w) as [r0 w1] eqn:Hc.
    apply confirm_fs in Hc. cbn [fst snd] in *.
    destruct Hr as [->|[->| ->]]; cbn [fst snd].
    + destruct (is_dir (fs w) imgs_path); cbn [fst snd];
        (split; [done|split; [done|split; [auto|congruence]]]).
    + split; [done|split; [done|split; [auto|done]]].
    + split; [done|split; [done|split; [auto|done]]].
  - destruct (is_dir (fs w) imgs_path); cbn [fst snd];
      (split; [done|split; [done|split; [auto|congruence]]]).
Qed.

Lemma check_valid_args_outcomes_witness :
  is_dir (fs Sample.world_abc) ["d"] = true.
Proof.
  apply (proj1 (proj2 (check_valid_args_outcomes ["d"] ["d"; "new.pdf"]
                         Sample.world_abc))).
  vm_compute. reflexivity.
Defined.

(** X9.  When the output path exists and standard input ends before any
    line answers the question, [check_valid_args] raises [EOFError]: it
    has then asked once per line read and once more, and neither tested
    the input path nor touched the file system. *)
Theorem check_valid_args_eof (imgs_path output_path : path) (w : world) :
  path_exists (fs w) output_path = true ->
  Forall (fun l => keeps_asking l = true) (stdin w) ->
  check_valid_args imgs_path output_path w
  = (Raise EOFError,
     {| fs := fs w; stdin := [];
        console := console w
                   ++ replicate (S (length (stdin w)))
                        (EvPrompt (overwrite_msg output_path)) |}).
Proof.
  intros Hout Hlines. rewrite check_valid_args_run, Hout.
  unfold confirm. by rewrite confirm_loop_eof.
Qed.

Lemma check_valid_args_eof_witness :
  let w := {| fs := Sample.fs_abc; stdin := ["what"; "  "]; console := [] |} in
  check_valid_args ["nowhere"] ["d"; "c.txt"] w
  = (Raise EOFError,
     {| fs := fs w; stdin := [];
        console := console w
                   ++ replicate (S (length (stdin w)))
                        (EvPrompt (overwrite_msg ["d"; "c.txt"])) |}).
Proof.
  intros w. apply (check_valid_args_eof ["nowhere"] ["d"; "c.txt"] w).
  - vm_compute. reflexivity.
  - apply (bool_decide_unpack _). vm_compute. reflexivity.
Defined.

End CheckMore.

(** ** What [convert_imgs] leaves alone *)

Section Frame.
Implicit Types (m : filesystem) (p q d t : path) (w : world).

Lemma iterdir_world d w r w' : iterdir d w = (r, w') -> w' = w.
Proof.
  unfold iterdir. by destruct (node_at (fs w) d) as [[]|]; intros [= _ <-].
Qed.

(** The loop writes below the output directory only, and neither reads the
    standard input nor writes to the console, however it ends. *)
Lemma for_each_convert_img_frame (input_dir output_dir : path)
    (temp_suffix : string) (b c : Z) (entries : list path) w r w' :
  for_each entries (convert_img input_dir output_dir temp_suffix b c) w
  = (r, w') ->
  stdin w' = stdin w /\ console w' = console w
  /\ (forall p, parent p <> output_dir -> fs w' !! p = fs w !! p).
Proof.
  revert w. induction entries as [|q entries IH]; intros w Hrun.
  - cbn in Hrun. by injection Hrun as _ <-.
  - cbn [for_each] in Hrun. rewrite seq_run, convert_img_run in Hrun.
    destruct (get_img_name (name q)) as [img_name|]; [|by eapply IH].
    destruct (apply_brightness_contrast _ b c) as [tr|e].
    + apply IH in Hrun as (Hin & Hcon & Hfs). cbn in Hin, Hcon, Hfs.
      split; [done|]. split; [done|]. intros p Hp. rewrite Hfs by done.
      unfold fs_imwrite. destruct (_ && _); [|done]. cbn.
      apply lookup_insert_ne. intros <-. by rewrite parent_join in Hp.
    + by injection Hrun as _ <-.
Qed.

Lemma convert_imgs_loop_frame (input_dir output_dir : path)
    (temp_suffix : string) (b c : Z) w r w' :
  convert_imgs_loop input_dir output_dir temp_suffix b c w = (r, w') ->
  stdin w' = stdin w /\ console w' = console w
  /\ (forall p, parent p <> output_dir -> fs w' !! p = fs w !! p).
Proof.
  unfold convert_imgs_loop. rewrite bind_run.
  destruct (iterdir input_dir w) as [[entries|e] w1] eqn:Hit;
    apply iterdir_world in Hit as ->.
  - apply for_each_convert_img_frame.
  - by intros [= _ <-].
Qed.

Lemma node_cases m p :
  is_dir m p = true \/ path_exists m p = false \/ is_file m p = true.
Proof.
  unfold is_dir, path_exists, is_file.
  destruct (node_at m p) as [[c|]|].
  - by right; right.
  - left. by apply bool_decide_eq_true_2.
  - right. left. apply bool_decide_eq_false_2. by intros [].
Qed.

(** The first half of [convert_imgs] on an entry of a directory: nothing
    but that entry changes, and only a regular file there makes it ask. *)
Lemma convert_imgs_mkdir_frame p w r w' :
  is_dir (fs w) (parent p) = true ->
  convert_imgs_mkdir p w = (r, w') ->
  (forall q, q <> p -> fs w' !! q = fs w !! q)
  /\ (is_file (fs w) p = false -> stdin w' = stdin w /\ console w' = console w).
Proof.
  intros Hpar Hrun.
  destruct (node_cases (fs w) p) as [Hd|[Hn|Hf]].
  - rewrite convert_imgs_mkdir_dir in Hrun by done. by injection Hrun as _ <-.
  - rewrite convert_imgs_mkdir_fresh in Hrun by done.
    injection Hrun as _ <-. split; [|done].
    intros q Hq. cbn. by apply lookup_insert_ne.
  - rewrite Hf. split; [|done].
    rewrite convert_imgs_mkdir_file, seq_run in Hrun by done.
    destruct (confirm (overwrite_msg p) w) as [[[]|e] w1] eqn:Hc;
      pose proof (confirm_fs _ _ _ _ Hc) as Hfs.
    + rewrite replace_file_by_dir in Hrun by by rewrite Hfs.
      injection Hrun as _ <-. intros q Hq. cbn. rewrite Hfs.
      rewrite lookup_insert_ne by done. by apply lookup_delete_ne.
    + injection Hrun as _ <-. intros q _. by rewrite Hfs.
Qed.

(** [convert_imgs] on a directory, however it ends: only the scratch path
    and the entries of the scratch directory can differ afterwards. *)
Lemma convert_imgs_changes (input_dir : path) (temp_suffix : string)
    (b c : Z) w r w' :
  is_dir (fs w) input_dir = true ->
  convert_imgs input_dir None temp_suffix b c w = (r, w') ->
  let scratch := input_dir /: scratch_name in
  (forall p, p <> scratch -> parent p <> scratch -> fs w' !! p = fs w !! p)
  /\ (is_file (fs w) scratch = false ->
      stdin w' = stdin w /\ console w' = console w).
Proof.
  intros Hin Hrun scratch. rewrite convert_imgs_run in Hrun. fold scratch in Hrun.
  destruct (convert_imgs_mkdir scratch w) as [[[]|e] w1] eqn:Hmk;
    apply convert_imgs_mkdir_frame in Hmk as [Hmk1 Hmk2];
    try (unfold scratch; by rewrite parent_join).
  - rewrite seq_run in Hrun.
    destruct (convert_imgs_loop input_dir scratch temp_suffix b c w1)
      as [[[]|e] w2] eqn:Hloop;
      apply convert_imgs_loop_frame in Hloop as (Hi & Hc & Hfs);
      injection Hrun as _ <-.
    all: split; [intros p Hp1 Hp2; by rewrite Hfs, Hmk1|].
    all: intros Hf; destruct (Hmk2 Hf) as [<- <-]; done.
  - injection Hrun as _ <-. split; [|done]. intros p Hp _. by apply Hmk1.
Qed.

(** X10.  However [convert_imgs] ends on a directory, it has changed
    nothing but the scratch path [input_dir/.images_to_pdf_temp] and
    entries of the scratch directory: every other path holds what it held,
    the images of the input directory in particular.  Unless a regular
    file sits at the scratch path, it has asked and printed nothing. *)
Theorem convert_imgs_frame (input_dir : path) (temp_suffix : string)
    (b c : Z) (w : world) :
  is_dir (fs w) input_dir = true ->
  let scratch := input_dir /: scratch_name in
  let w' := (convert_imgs input_dir None temp_suffix b c w).2 in
  (forall p, p <> scratch -> parent p <> scratch -> fs w' !! p = fs w !! p)
  /\ (forall q, q ∈ valid_images (fs w) input_dir -> fs w' !! q = fs w !! q)
  /\ (is_file (fs w) scratch = false ->
      stdin w' = stdin w /\ console w' = console w).
Proof.
  intros Hin scratch w'.
  destruct (convert_imgs input_dir None temp_suffix b c w) as [r w1] eqn:Hrun.
  apply convert_imgs_changes in Hrun as [Hfs Hio]; [|done].
  subst w'. cbn [snd]. split; [done|]. split; [|done].
  intros q Hq. unfold valid_images in Hq.
  apply list_elem_of_filter in Hq as [Hext Hq].
  apply elem_of_children in Hq as [_ Hq]. apply is_child_inv in Hq.
  apply Hfs.
  - intros Heq. rewrite Heq in Hext. unfold scratch in Hext.
    rewrite name_join in Hext. by rewrite has_ext_scratch_name in Hext.
  - rewrite Hq, parent_join. unfold scratch. intros Heq. symmetry in Heq.
    by apply join_ne_self in Heq.
Qed.

Lemma convert_imgs_frame_witness :
  let w := {| fs := Sample.fs_file_in_way; stdin := ["y"]; console := [] |} in
  let w' := (convert_imgs ["d"] None "__temp" 40 (-20) w).2 in
  (forall p, p <> ["d"; scratch_name] -> parent p <> ["d"; scratch_name] ->
             fs w' !! p = fs w !! p)
  /\ (forall q, q ∈ valid_images (fs w) ["d"] -> fs w' !! q = fs w !! q)
  /\ (is_file (fs w) ["d"; scratch_name] = false ->
      stdin w' = stdin w /\ console w' = console w).
Proof.
  intros w. apply (convert_imgs_frame ["d"] "__temp" 40 (-20) w).
  vm_compute. reflexivity.
Defined.

End Frame.

(** ** The assembly step and the run as a whole *)

Section Assembly.
Variable convert : filesystem -> list path -> result (list Z).
Implicit Types (m : filesystem) (p q d t : path) (w : world).

(** The paths [imgs_dir / entry.name] that [imgs_to_pdf] builds are the
    entries themselves. *)
Lemma entry_paths m d :
  map (fun entry => d /: name entry) (children m d) = children m d.
Proof.
  rewrite <- (map_id (children m d)) at 2. apply map_ext_in.
  intros q Hq. apply list_elem_of_In, elem_of_children in Hq as [_ Hq].
  symmetry. by apply is_child_inv.
Qed.

Lemma fs_write_bytes_Ok p bytes m m' :
  fs_write_bytes p bytes m = Ok m' ->
  m' = <[p := File (Blob bytes)]> m.
Proof.
  unfold fs_write_bytes.
  destruct (node_at m p) as [[c0|]|]; [|done|];
    (destruct (is_dir m (parent p)); [|by destruct (under_file m p)]);
    by intros [= <-].
Qed.

Lemma imgs_to_pdf_run d out w :
  imgs_to_pdf convert d out w
  = if is_dir (fs w) d then
      match convert (fs w) (children (fs w) d) with
      | Ok pdf => fs_op (fs_write_bytes out pdf) w
      | Raise e => (Raise e, w)
      end
    else (Raise (if is_file (fs w) d || under_file (fs w) d
                 then NotADirectoryError else FileNotFoundError), w).
Proof.
  unfold imgs_to_pdf. rewrite bind_run. unfold iterdir, is_dir, is_file.
  destruct (node_at (fs w) d) as [[c0|]|]; [done| |done].
  rewrite bool_decide_eq_true_2 by done.
  rewrite bind_run. unfold get_fs at 1. rewrite bind_run. unfold lift at 1.
  by rewrite entry_paths.
Qed.

(** X11.  [imgs_to_pdf] writes the output file or nothing.  When it
    returns, [imgs_dir] was a directory, the assembler was given the
    entries of [imgs_dir], each once and in listing order, and the one
    change is that the output path holds the bytes the assembler returned.
    When it raises, be it for a missing directory, a failure of the
    assembler or an output path that cannot be opened, the file system, the
    standard input and the console are as they were. *)
Theorem imgs_to_pdf_all_or_nothing (imgs_dir output_path : path) (w : world) :
  match imgs_to_pdf convert imgs_dir output_path w with
  | (Ok _, w') =>
      exists pdf,
        is_dir (fs w) imgs_dir = true
        /\ convert (fs w) (children (fs w) imgs_dir) = Ok pdf
        /\ w' = set_fs (<[output_path := File (Blob pdf)]> (fs w)) w
  | (Raise _, w') => w' = w
  end.
Proof.
  rewrite imgs_to_pdf_run.
  destruct (is_dir (fs w) imgs_dir); [|done].
  destruct (convert (fs w) (children (fs w) imgs_dir)) as [pdf|e]; [|done].
  rewrite fs_op_run.
  destruct (fs_write_bytes output_path pdf (fs w)) as [m'|e] eqn:Hw; [|done].
  apply fs_write_bytes_Ok in Hw as ->. by exists pdf.
Qed.

Lemma parent_prefix p : parent p `prefix_of` p.
Proof.
  exists (drop (length p - 1) p). unfold parent. by rewrite take_drop.
Qed.

Lemma check_valid_args_fs (imgs_path output_path : path) w r w' :
  check_valid_args imgs_path output_path w = (r, w') ->
  fs w' = fs w /\ (r = Ok tt -> is_dir (fs w) imgs_path = true).
Proof.
  rewrite check_valid_args_run.
  destruct (path_exists (fs w) output_path).
  - destruct (confirm (overwrite_msg output_path) w) as [[[]|e] w1] eqn:Hc;
      apply confirm_fs in Hc.
    + by destruct (is_dir (fs w) imgs_path); intros [= <- <-].
    + by intros [= <- <-].
  - by destruct (is_dir (fs w) imgs_path); intros [= <- <-].
Qed.

(** The [try] block of [main] changes the output file at most. *)
Lemma assembly_frame (output_path d : path) w r w' p :
  (out ← lift (get_output_path output_path);
   imgs_to_pdf convert d out) w = (r, w') ->
  get_output_path output_path <> Ok p ->
  fs w' !! p = fs w !! p.
Proof.
  rewrite bind_run. unfold lift.
  destruct (get_output_path output_path) as [out|e]; [|by intros [= _ <-]].
  rewrite imgs_to_pdf_run. intros Hrun Hne.
  destruct (is_dir (fs w) d); [|by injection Hrun as _ <-].
  destruct (convert (fs w) (children (fs w) d)) as [pdf|e];
    [|by injection Hrun as _ <-].
  rewrite fs_op_run in Hrun.
  destruct (fs_write_bytes out pdf (fs w)) as [m'|e] eqn:Hw;
    injection Hrun as _ <-; [|done].
  apply fs_write_bytes_Ok in Hw as ->. cbn.
  apply lookup_insert_ne. congruence.
Qed.

(** [delete_temp_imgs] changes nothing outside the directory it is given. *)
Lemma delete_temp_imgs_frame d w r w' p :
  delete_temp_imgs d w = (r, w') -> ~ d `prefix_of` p ->
  fs w' !! p = fs w !! p.
Proof.
  unfold delete_temp_imgs, rmtree. rewrite fs_op_run. intros Hrun Hp.
  destruct (fs_rmtree d (fs w)) as [m'|e] eqn:Hrm;
    injection Hrun as _ <-; [|done].
  unfold fs_rmtree in Hrm.
  destruct (node_at (fs w) d) as [[c0|]|]; [done| |by destruct (under_file _ _)].
  injection Hrm as <-. cbn.
  destruct (fs w !! p) as [x|] eqn:Hx.
  - by apply map_lookup_filter_Some_2.
  - apply map_lookup_filter_None_2. by left.
Qed.

(** X12.  Whatever the arguments, the answers and the assembler, and
    however the run ends, [main] changes nothing outside the scratch
    directory [imgs_path/.images_to_pdf_temp] but the output path with the
    suffix [.pdf]: every other path holds at the end what it held at the
    start. *)
Theorem main_changes_only_output_and_scratch (a : args) (w : world) (p : path) :
  ~ (arg_imgs_path a /: scratch_name) `prefix_of` p ->
  get_output_path (main_output_path a) <> Ok p ->
  fs (main convert a w).2 !! p = fs w !! p.
Proof.
  intros Hp Hout. rewrite main_run.
  destruct (check_valid_args (arg_imgs_path a) (main_output_path a) w)
    as [r0 w0] eqn:Hchk.
  apply check_valid_args_fs in Hchk as [Hfs0 Hdir].
  destruct r0 as [[]|e]; [|by rewrite <- Hfs0].
  specialize (Hdir eq_refl). rewrite <- Hfs0 in Hdir. rewrite <- Hfs0.
  destruct (convert_imgs (arg_imgs_path a) None "__temp" (arg_brightness a)
              (arg_contrast a) w0) as [r1 w1] eqn:Hconv.
  assert (fs w1 !! p = fs w0 !! p) as <-.
  { apply convert_imgs_changes in Hconv as [Hfs1 _]; [|done].
    apply Hfs1.
    - intros ->. by apply Hp.
    - intros Heq. apply Hp. rewrite <- Heq. apply parent_prefix. }
  destruct r1 as [converted_dir|e]; [|done].
  apply convert_imgs_Ok_is_dir in Hconv as [-> _].
  unfold try_finally.
  destruct ((out ← lift (get_output_path (main_output_path a));
             imgs_to_pdf convert (arg_imgs_path a /: scratch_name) out) w1)
    as [r2 w2] eqn:Hasm.
  apply assembly_frame with (p := p) in Hasm; [|done]. rewrite <- Hasm.
  destruct (delete_temp_imgs (arg_imgs_path a /: scratch_name) w2)
    as [[u|e] w3] eqn:Hdel;
    by apply delete_temp_imgs_frame with (p := p) in Hdel.
Qed.


(** X13.  When [main] returns normally, the input path was a directory,
    the scratch directory is gone, and the assembler has made the document
    from the entries of the scratch directory as [convert_imgs] left it.
    The output path with the suffix [.pdf] then holds that document,
    unless it lies in the scratch directory: then the document was deleted
    with the scratch directory, and the run still ends normally.  With the
    default output path the document is at [imgs_path/combined_imgs.pdf]. *)
Theorem main_returns_with_pdf (a : args) (w w' : world) :
  main convert a w = (Ok tt, w') ->
  let imgs_path := arg_imgs_path a in
  let scratch := imgs_path /: scratch_name in
  let w1 := (convert_imgs imgs_path None "__temp" (arg_brightness a)
               (arg_contrast a)
               (check_valid_args imgs_path (main_output_path a) w).2).2 in
  is_dir (fs w) imgs_path = true
  /\ path_exists (fs w') scratch = false
  /\ exists out pdf,
       get_output_path (main_output_path a) = Ok out
       /\ convert (fs w1) (children (fs w1) scratch) = Ok pdf
       /\ fs w' !! out = (if bool_decide (scratch `prefix_of` out) then None
                          else Some (File (Blob pdf)))
       /\ (arg_output_path a = None ->
           out = imgs_path /: "combined_imgs.pdf"
           /\ fs w' !! out = Some (File (Blob pdf))).
Proof.
  intros Hrun imgs_path scratch w1. rewrite main_run in Hrun.
  fold imgs_path in Hrun. subst w1.
  destruct (check_valid_args imgs_path (main_output_path a) w)
    as [r0 w0] eqn:Hchk.
  pose proof (check_valid_args_fs _ _ _ _ _ Hchk) as [Hfs0 Hdir].
  destruct r0 as [[]|e]; [|done]. specialize (Hdir eq_refl). cbn [snd].
  destruct (convert_imgs imgs_path None "__temp" (arg_brightness a)
              (arg_contrast a) w0) as [[converted_dir|e] w1] eqn:Hconv; [|done].
  apply convert_imgs_Ok_is_dir in Hconv as [-> Hsd]. fold scratch in Hsd, Hrun.
  cbn [snd]. unfold try_finally in Hrun. rewrite bind_run in Hrun.
  unfold lift at 1 in Hrun.
  destruct (get_output_path (main_output_path a)) as [out|e] eqn:Hout.
  2:{ by destruct (delete_temp_imgs scratch w1) as [[u|e'] w3]. }
  rewrite imgs_to_pdf_run, Hsd in Hrun.
  destruct (convert (fs w1) (children (fs w1) scratch)) as [pdf|e] eqn:Hpdf.
  2:{ by destruct (delete_temp_imgs scratch w1) as [[u|e'] w3]. }
  rewrite fs_op_run in Hrun.
  destruct (fs_write_bytes out pdf (fs w1)) as [m2|e] eqn:Hw.
  2:{ by destruct (delete_temp_imgs scratch w1) as [[u|e'] w3]. }
  pose proof (fs_write_bytes_keeps_dir _ _ _ _ _ Hw Hsd) as Hsd2.
  apply fs_write_bytes_Ok in Hw as ->.
  unfold delete_temp_imgs, rmtree in Hrun. rewrite fs_op_run in Hrun.
  cbn [fs set_fs] in Hrun. rewrite fs_rmtree_dir in Hrun by done.
  injection Hrun as <-. cbn [fs set_fs].
  split; [done|]. split.
  { unfold path_exists, scratch. rewrite node_at_join.
    rewrite removed_below by done. apply bool_decide_eq_false_2. by intros []. }
  assert (~ scratch `prefix_of` out ->
          filter (fun kv => ~ scratch `prefix_of` kv.1)
            (<[out := File (Blob pdf)]> (fs w1)) !! out
          = Some (File (Blob pdf))) as Hkept.
  { intros Hn. apply map_lookup_filter_Some_2; [|done].
    apply lookup_insert_eq. }
  exists out, pdf. split; [done|]. split; [done|]. split.
  - case_bool_decide as Hpre; [by apply removed_below | by apply Hkept].
  - intros Hnone. unfold main_output_path in Hout. rewrite Hnone in Hout.
    fold imgs_path in Hout.
    change "combined_imgs.pdf" with ("combined_imgs" +:+ ".pdf") in Hout.
    rewrite with_suffix_pdf in Hout by done.
    injection Hout as <-. split; [done|]. apply Hkept.
    unfold scratch. intros [k Hk]. unfold path_join in Hk.
    rewrite <- app_assoc in Hk. by apply app_inv_head in Hk.
Qed.

End Assembly.

Lemma main_changes_only_output_and_scratch_witness :
  fs (main Sample.broken_assembler (mk_args ["d"] (Some ["d"; "c.txt"]) 9 9)
        {| fs := Sample.fs_abc; stdin := ["y"]; console := [] |}).2
    !! ["d"; "c.txt"]
  = Sample.fs_abc !! ["d"; "c.txt"].
Proof.
  apply (main_changes_only_output_and_scratch Sample.broken_assembler
           (mk_args ["d"] (Some ["d"; "c.txt"]) 9 9)
           {| fs := Sample.fs_abc; stdin := ["y"]; console := [] |}
           ["d"; "c.txt"]).
  - apply (bool_decide_unpack _). vm_compute. reflexivity.
  - apply (bool_decide_unpack _). vm_compute. reflexivity.
Defined.

Lemma main_returns_with_pdf_witness :
  let a := mk_args ["d"] (Some ["d"; scratch_name; "x.pdf"]) 0 0 in
  let w' := (main Sample.assembler a Sample.world_abc).2 in
  let w1 := (convert_imgs ["d"] None "__temp" 0 0
               (check_valid_args ["d"] (main_output_path a)
                  Sample.world_abc).2).2 in
  is_dir Sample.fs_abc ["d"] = true
  /\ path_exists (fs w') ["d"; scratch_name] = false
  /\ exists out pdf,
       get_output_path (main_output_path a) = Ok out
       /\ Sample.assembler (fs w1) (children (fs w1) ["d"; scratch_name])
          = Ok pdf
       /\ fs w' !! out
          = (if bool_decide (["d"; scratch_name] `prefix_of` out) then None
             else Some (File (Blob pdf)))
       /\ (arg_output_path a = None ->
           out = ["d"] /: "combined_imgs.pdf"
           /\ fs w' !! out = Some (File (Blob pdf))).
Proof.
  intros a w'.
  apply (main_returns_with_pdf Sample.assembler a Sample.world_abc w').
  vm_compute. reflexivity.
Defined.

(** ** What the staged files hold *)

Section Content.
Implicit Types (m : filesystem) (p q d t : path) (w : world).






End Content.

(** ** [convert_imgs] on a missing directory *)

Section Missing.
Implicit Types (m : filesystem) (p q d t : path) (w : world).

(** In a well-formed file system the ancestors of a directory are
    directories. *)
Lemma wf_ancestors m p k :
  wf_fs m -> is_dir m p = true -> is_dir m (take k p) = true.
Proof.
  intros Hwf. revert k. induction p as [|x p IH] using rev_ind; intros k Hd.
  - by rewrite take_nil.
  - destruct (decide (k <= length p)%nat) as [Hk|Hk].
    + rewrite take_app_le by done. apply IH.
      apply is_dir_true in Hd. change (p ++ [x]) with (p /: x) in Hd.
      rewrite node_at_join in Hd.
      destruct (wf_fs_lookup m (p /: x) Hwf) as [_ Hpar]; [by eexists|].
      by rewrite parent_join in Hpar.
    + rewrite take_ge; [done|]. rewrite length_app. cbn. lia.
Qed.

Lemma not_under_file m p n :
  wf_fs m -> is_dir m (parent p) = true -> path_exists m p = false ->
  under_file m (p /: n) = false.
Proof.
  intros Hwf Hpar Hex. unfold under_file. apply bool_decide_eq_false_2.
  rewrite Exists_exists. intros (k & Hk & Hfile).
  apply elem_of_seq in Hk. unfold path_join in Hk, Hfile.
  rewrite length_app in Hk. cbn in Hk.
  apply is_file_exists in Hfile as [Hex' Hnd].
  destruct (decide (k = length p)) as [->|Hne].
  - rewrite take_app_length in Hex'. congruence.
  - rewrite take_app_le in Hnd by lia.
    replace (take k p) with (take k (parent p)) in Hnd.
    + by rewrite wf_ancestors in Hnd.
    + unfold parent. rewrite take_take. f_equal. lia.
Qed.

Lemma missing_has_no_entries m d q :
  wf_fs m -> path_exists m d = false -> is_child d q = true -> m !! q = None.
Proof.
  intros Hwf Hex Hch. destruct (m !! q) as [x|] eqn:Hx; [|done].
  destruct (wf_fs_lookup m q Hwf) as [_ Hpar]; [by eexists|].
  apply is_child_inv in Hch. rewrite Hch, parent_join in Hpar.
  apply is_dir_exists in Hpar. congruence.
Qed.

Lemma get_img_name_scratch_name : get_img_name scratch_name = None.
Proof. reflexivity. Qed.

(** X15.  [convert_imgs] does not fail on an input directory that is not
    there: [mkdir(parents=True)] on the scratch path makes the input
    directory on the way, the loop finds the scratch directory as the only
    entry and passes over it, and the call returns the empty scratch
    directory without a word on the console. *)
Theorem convert_imgs_makes_missing_input
    (input_dir : path) (temp_suffix : string) (b c : Z) (w : world) :
  wf_fs (fs w) ->
  path_exists (fs w) input_dir = false ->
  is_dir (fs w) (parent input_dir) = true ->
  let scratch := input_dir /: scratch_name in
  convert_imgs input_dir None temp_suffix b c w
  = (Ok scratch,
     set_fs (<[scratch := Dir]> (<[input_dir := Dir]> (fs w))) w).
Proof.
  intros Hwf Hex Hpar scratch.
  assert (input_dir <> scratch) as Hne.
  { unfold scratch. intros Heq. symmetry in Heq. by apply join_ne_self in Heq. }
  assert (fs w !! scratch = None) as Hsc.
  { eapply missing_has_no_entries; [done..|apply is_child_join]. }
  assert (is_dir (fs w) input_dir = false) as Hnd.
  { destruct (is_dir (fs w) input_dir) eqn:Hd; [|done].
    apply is_dir_exists in Hd. congruence. }
  assert (path_exists (<[input_dir := Dir]> (fs w)) scratch = false) as Hex1.
  { unfold path_exists, scratch. rewrite node_at_join.
    rewrite lookup_insert_ne by done. fold scratch. rewrite Hsc.
    apply bool_decide_eq_false_2. by intros []. }
  assert (fs_mkdir scratch true true (fs w)
          = Ok (<[scratch := Dir]> (<[input_dir := Dir]> (fs w)))) as Hmk.
  { unfold fs_mkdir, scratch, path_join. rewrite reverse_snoc.
    rewrite mkdir_rev_unfold. rewrite reverse_cons, reverse_involutive.
    fold (input_dir /: scratch_name). fold scratch.
    unfold os_mkdir at 1.
    assert (path_exists (fs w) scratch = false) as ->.
    { unfold path_exists, scratch. rewrite node_at_join. fold scratch.
      rewrite Hsc. apply bool_decide_eq_false_2. by intros []. }
    unfold scratch at 1. rewrite parent_join, Hnd.
    unfold scratch at 1. rewrite not_under_file by done.
    change (mkdir_rev (reverse input_dir) true true (fs w))
      with (fs_mkdir input_dir true true (fs w)).
    rewrite fs_mkdir_fresh by done. rewrite rbind_ok.
    unfold mkdir_leaf, os_mkdir. rewrite Hex1.
    unfold scratch at 1. rewrite parent_join.
    by rewrite is_dir_insert_Dir. }
  rewrite convert_imgs_run. fold scratch.
  unfold convert_imgs_mkdir, try_except, Path_mkdir.
  rewrite fs_op_run, Hmk.
  rewrite seq_run. unfold convert_imgs_loop. rewrite bind_run.
  unfold iterdir. cbn [fs set_fs].
  assert (node_at (<[scratch := Dir]> (<[input_dir := Dir]> (fs w))) input_dir
          = Some Dir) as ->.
  { rewrite node_at_insert_ne by done. apply is_dir_true.
    by apply is_dir_insert_Dir. }
  assert (children (<[scratch := Dir]> (<[input_dir := Dir]> (fs w))) input_dir
          = [scratch]) as ->.
  { apply Permutation_singleton_r. apply NoDup_Permutation.
    - apply NoDup_children.
    - apply NoDup_singleton.
    - intros q. unfold scratch at 1. rewrite children_insert_dir.
      rewrite list_elem_of_singleton. split; [|by left].
      intros [->|[Hq Hch]%elem_of_children]; [done|]. exfalso.
      rewrite lookup_insert_ne in Hq.
      + rewrite (missing_has_no_entries (fs w) input_dir q) in Hq by done.
        by destruct Hq.
      + intros <-. apply is_child_inv in Hch. symmetry in Hch.
        by apply join_ne_self in Hch. }
  cbn [for_each]. rewrite seq_run, convert_img_run.
  unfold scratch at 1. by rewrite name_join, get_img_name_scratch_name.
Qed.

Lemma convert_imgs_makes_missing_input_witness :
  convert_imgs ["d"; "sub"] None "__temp" 10 20
    {| fs := Sample.fs_abc; stdin := []; console := [] |}
  = (Ok ["d"; "sub"; scratch_name],
     set_fs (<[ ["d"; "sub"; scratch_name] := Dir]>
               (<[ ["d"; "sub"] := Dir]> Sample.fs_abc))
       {| fs := Sample.fs_abc; stdin := []; console := [] |}).
Proof.
  apply (convert_imgs_makes_missing_input ["d"; "sub"] "__temp" 10 20
           {| fs := Sample.fs_abc; stdin := []; console := [] |}).
  - apply (bool_decide_unpack _). vm_compute. reflexivity.
  - vm_compute. reflexivity.
  - vm_compute. reflexivity.
Defined.

End Missing.

(** ** Runs that end early, runs that ask nothing *)

Section Runs.
Variable convert : filesystem -> list path -> result (list Z).
Implicit Types (m : filesystem) (p q d t : path) (w : world).

Lemma fs_op_io (op : filesystem -> result filesystem) w r w' :
  fs_op op w = (r, w') -> stdin w' = stdin w /\ console w' = console w.
Proof. rewrite fs_op_run. by destruct (op (fs w)); intros [= _ <-]. Qed.

Lemma imgs_to_pdf_io d out w r w' :
  imgs_to_pdf convert d out w = (r, w') ->
  stdin w' = stdin w /\ console w' = console w.
Proof.
  rewrite imgs_to_pdf_run. destruct (is_dir (fs w) d); [|by intros [= _ <-]].
  destruct (convert (fs w) (children (fs w) d)); [|by intros [= _ <-]].
  apply fs_op_io.
Qed.

(** X16.  On an input path that is not a directory [main] ends in
    [check_valid_args]: its outcome is that of [check_valid_args], never a
    normal return, and the file system is as it was; no scratch directory
    is made.  When the output path does not exist either, the outcome is
    the error "Invalid input images path" and nothing was asked. *)
Theorem main_rejects_non_directory (a : args) (w : world) :
  is_dir (fs w) (arg_imgs_path a) = false ->
  main convert a w
  = check_valid_args (arg_imgs_path a) (main_output_path a) w
  /\ fs (main convert a w).2 = fs w
  /\ (main convert a w).1 <> Ok tt
  /\ (path_exists (fs w) (main_output_path a) = false ->
      main convert a w = (Raise (invalid_input (arg_imgs_path a)), w)).
Proof.
  intros Hnd.
  assert (main convert a w
          = check_valid_args (arg_imgs_path a) (main_output_path a) w) as Heq.
  { rewrite main_run.
    destruct (check_valid_args (arg_imgs_path a) (main_output_path a) w)
      as [[[]|e] w0] eqn:Hchk; [|done].
    apply check_valid_args_fs in Hchk as [_ Hdir].
    specialize (Hdir eq_refl). congruence. }
  rewrite Heq. split; [done|].
  destruct (check_valid_args (arg_imgs_path a) (main_output_path a) w)
    as [r w0] eqn:Hchk.
  pose proof (check_valid_args_fs _ _ _ _ _ Hchk) as [Hfs Hdir].
  split; [done|]. split.
  - cbn. intros Hr. specialize (Hdir Hr). congruence.
  - intros Hex. rewrite check_valid_args_silent in Hchk by done.
    by rewrite Hnd in Hchk.
Qed.

(** X17.  When the output path as supplied does not exist and no regular
    file sits at the scratch path, [main] runs unattended: however it
    ends, it has read nothing from the standard input and written nothing
    to the console. *)
Theorem main_runs_unattended (a : args) (w : world) :
  path_exists (fs w) (main_output_path a) = false ->
  is_file (fs w) (arg_imgs_path a /: scratch_name) = false ->
  stdin (main convert a w).2 = stdin w
  /\ console (main convert a w).2 = console w.
Proof.
  intros Hex Hnf. destruct (main convert a w) as [r w'] eqn:Hmain. cbn [snd].
  rewrite main_run, check_valid_args_silent in Hmain by done.
  destruct (is_dir (fs w) (arg_imgs_path a)) eqn:Hd;
    [|by injection Hmain as _ <-].
  destruct (convert_imgs (arg_imgs_path a) None "__temp" (arg_brightness a)
              (arg_contrast a) w) as [r1 w1] eqn:Hconv.
  pose proof (convert_imgs_changes _ _ _ _ _ _ _ Hd Hconv) as [_ Hio].
  destruct (Hio Hnf) as [Hin1 Hcon1].
  destruct r1 as [converted_dir|e]; [|by injection Hmain as _ <-].
  unfold try_finally in Hmain. rewrite bind_run in Hmain.
  unfold lift at 1 in Hmain.
  destruct (get_output_path (main_output_path a)) as [out|e].
  - destruct (imgs_to_pdf convert converted_dir out w1) as [r2 w2] eqn:Hasm.
    apply imgs_to_pdf_io in Hasm as [Hi2 Hc2].
    destruct (delete_temp_imgs converted_dir w2) as [[u|e3] w3] eqn:Hdel;
      unfold delete_temp_imgs, rmtree in Hdel;
      apply fs_op_io in Hdel as [Hi3 Hc3];
      injection Hmain as _ <-; split; congruence.
  - destruct (delete_temp_imgs converted_dir w1) as [[u|e3] w3] eqn:Hdel;
      unfold delete_temp_imgs, rmtree in Hdel;
      apply fs_op_io in Hdel as [Hi3 Hc3];
      injection Hmain as _ <-; split; congruence.
Qed.

End Runs.

Lemma main_rejects_non_directory_witness :
  let a := mk_args ["d"; "a.png"] None 0 0 in
  main Sample.assembler a Sample.world_abc
  = check_valid_args (arg_imgs_path a) (main_output_path a) Sample.world_abc
  /\ fs (main Sample.assembler a Sample.world_abc).2 = fs Sample.world_abc
  /\ (main Sample.assembler a Sample.world_abc).1 <> Ok tt
  /\ (path_exists (fs Sample.world_abc) (main_output_path a) = false ->
      main Sample.assembler a Sample.world_abc
      = (Raise (invalid_input (arg_imgs_path a)), Sample.world_abc)).
Proof.
  intros a. apply (main_rejects_non_directory Sample.assembler a Sample.world_abc).
  vm_compute. reflexivity.
Defined.

Lemma main_runs_unattended_witness :
  let a := mk_args ["d"] None 30 131 in
  let w := {| fs := Sample.fs_abc; stdin := ["n"]; console := [] |} in
  stdin (main Sample.assembler a w).2 = stdin w
  /\ console (main Sample.assembler a w).2 = console w.
Proof.
  intros a w. apply (main_runs_unattended Sample.assembler a w).
  - vm_compute. reflexivity.
  - vm_compute. reflexivity.
Defined.
